(** * Poke-combat: a shallow embedding of the application logic

    The repository is a React single-page application.  The pieces that
    carry logic are embedded here, each in a module of its own:

    - [Combat]    : components/CombatResult (the timer-driven sequencer),
    - [Selection] : pages/CharacterList, [handleSelect],
    - [Api]       : services/api, [getCharacters] and [getSingleCharacter],
    - [Pages]     : pages/CharacterList (loading the catalog),
                    pages/CharacterDetail, pages/Combat, components/Card
                    and components/Character.

    JavaScript numbers that the code only uses as integers are [Z]; strings
    are [string]; arrays are [list]; object literals used as lookup tables
    are [gmap string _]; [undefined] is [None] wherever a value may be
    missing. *)

From Stdlib Require Import ZArith Lia Ascii String List Bool.
From stdpp Require Import base option list strings pretty gmap.

#[local] Open Scope string_scope.
#[local] Open Scope list_scope.
#[local] Open Scope Z_scope.

(** ** String helpers shared by the components *)

Module Js.

(** [String.prototype.toUpperCase] on one character.  Fighter names are the
    catalog's ASCII slugs; on ASCII the method maps a-z to A-Z and leaves
    every other character alone. *)
Definition upper_ascii (c : ascii) : ascii :=
  let n := nat_of_ascii c in
  if ((97 <=? n)%nat && (n <=? 122)%nat)%bool then ascii_of_nat (n - 32) else c.

Fixpoint toUpperCase (s : string) : string :=
  match s with
  | EmptyString => EmptyString
  | String c r => String (upper_ascii c) (toUpperCase r)
  end.

(** [str.charAt(0)]: the first character as a string, [""] when there is none. *)
Definition charAt0 (str : string) : string :=
  match str with
  | EmptyString => EmptyString
  | String c _ => String c EmptyString
  end.

(** [str.slice(1)]. *)
Definition slice1 (str : string) : string :=
  match str with
  | EmptyString => EmptyString
  | String _ r => r
  end.

(** [const capitalizeFirst = (str) => str.charAt(0).toUpperCase() + str.slice(1)] *)
Definition capitalizeFirst (str : string) : string :=
  toUpperCase (charAt0 str) +:+ slice1 str.

(** [arr[i]] for a JavaScript number [i] that holds an integer: [undefined]
    out of range, also for a negative index. *)
Definition at_index {A} (arr : list A) (i : Z) : option A :=
  if i <? 0 then None else arr !! Z.to_nat i.

End Js.

(** ** components/CombatResult: the combat sequencer *)

Module Combat.
Import Js.

(** A fighter record as the sequencer reads it:
    [{ id, name, attack, type, image }]. *)
Record Fighter := mkFighter {
  id : Z;
  name : string;
  attack : Z;
  type : string;
  image : string
}.

(** An entry of the [fighterStates] state:
    [{ ...fighters[i], isAttacking, isHit }]. *)
Record FighterState := mkFighterState {
  fighter : option Fighter;
  isAttacking : bool;
  isHit : bool
}.

(** *** Move selection *)

(** What [attackMoves[type]] can evaluate to.  [attackMoves] is an object
    literal, so a property read that finds no own property continues in
    [Object.prototype]: there it finds built-in methods (function objects,
    whose [length] is their arity) and the [__proto__] accessor, which
    yields the prototype object itself. *)
Inductive jsval :=
| Undefined
| ArrayOf (items : list string)
| FunctionOf (arity : nat)
| PrototypeObject.

(** The own properties of the [attackMoves] literal. *)
Definition attackMoves : gmap string (list string) :=
  list_to_map
    [ ("fire", ["Flamethrower"; "Fire Blast"; "Ember"; "Fire Punch"]);
      ("water", ["Water Gun"; "Hydro Pump"; "Bubble Beam"; "Surf"]);
      ("grass", ["Vine Whip"; "Solar Beam"; "Leaf Blade"; "Petal Dance"]);
      ("electric", ["Thunderbolt"; "Thunder"; "Thunder Shock"; "Quick Attack"]);
      ("normal", ["Tackle"; "Body Slam"; "Quick Attack"; "Hyper Beam"]);
      ("default", ["Tackle"; "Scratch"; "Quick Attack"; "Body Slam"]) ].

(** The properties every object literal inherits from [Object.prototype]
    (ECMAScript 20.1.3 and B.2.2), with the [length] of each method. *)
Definition Object_prototype : gmap string jsval :=
  list_to_map
    [ ("constructor", FunctionOf 1);
      ("hasOwnProperty", FunctionOf 1);
      ("isPrototypeOf", FunctionOf 1);
      ("propertyIsEnumerable", FunctionOf 1);
      ("toLocaleString", FunctionOf 0);
      ("toString", FunctionOf 0);
      ("valueOf", FunctionOf 0);
      ("__defineGetter__", FunctionOf 2);
      ("__defineSetter__", FunctionOf 2);
      ("__lookupGetter__", FunctionOf 1);
      ("__lookupSetter__", FunctionOf 1);
      ("__proto__", PrototypeObject) ].

(** [attackMoves[key]]: own property first, then the prototype. *)
Definition get_attackMoves (key : string) : jsval :=
  match attackMoves !! key with
  | Some table => ArrayOf table
  | None => default Undefined (Object_prototype !! key)
  end.

(** [a || b] on these values: only [undefined] is falsy (an array, even an
    empty one, a function and an object are truthy). *)
Definition or_else (a b : jsval) : jsval :=
  match a with
  | Undefined => b
  | _ => a
  end.

(** [moves.length]; [None] is [undefined]. *)
Definition length_of (moves : jsval) : option Z :=
  match moves with
  | ArrayOf items => Some (Z.of_nat (length items))
  | FunctionOf arity => Some (Z.of_nat arity)
  | PrototypeObject | Undefined => None
  end.

(** [Math.random()] returns a double in [0, 1); every such value the
    engines produce is [k / 2^53] for an integer [0 <= k < 2^53], and the
    draw is represented by its numerator [k].

    [Math.floor(Math.random() * len)]: for the lengths that occur (0, 1, 2
    and 4) the product is exact in double arithmetic, so the
    floor is the integer quotient below.  A [length] of [undefined] makes
    the product [NaN], and so the index: [None]. *)
Definition random_index (k : Z) (len : option Z) : option Z :=
  match len with
  | Some n => Some (k * n / 2 ^ 53)
  | None => None
  end.

(** [moves[i]]: an array element, [undefined] for everything else (a
    function or the prototype has no such property, and neither has any
    object for the key [NaN]). *)
Definition element (moves : jsval) (i : option Z) : option string :=
  match moves, i with
  | ArrayOf items, Some n => at_index items n
  | _, _ => None
  end.

(** [const getRandomMove = (type) => {
       const moves = attackMoves[type] || attackMoves.default;
       return moves[Math.floor(Math.random() * moves.length)]; }]
    with [k] the numerator of the [Math.random()] draw. *)
Definition getRandomMove (type : string) (k : Z) : option string :=
  let moves := or_else (get_attackMoves type) (get_attackMoves "default") in
  element moves (random_index k (length_of moves)).

(** How a template literal prints the value. *)
Definition to_text (v : option string) : string :=
  match v with
  | Some s => s
  | None => "undefined"
  end.

(** *** The component's state and the browser's timers *)

(** The React state of one mounted [CombatResult]. *)
Record State := mkState {
  combatLog : list string;
  currentAttacker : Z;
  combatFinished : bool;
  winner : option Fighter;
  fighterStates : list FighterState
}.

(** The local variables of one call of [simulateCombat]: [attacker],
    [round] and the handle [combatInterval].  The interval callback closes
    over them, so each call has a record of its own. *)
Record Activation := mkActivation {
  attacker : Z;
  round : Z;
  combatInterval : nat
}.

(** The functions the component hands to [setTimeout] and [setInterval]. *)
Inductive Callback :=
| StartCombat                 (* () => { simulateCombat(); } *)
| NextRound (env : nat)       (* the interval callback of activation [env] *)
| ResetAnimations             (* the 1000 ms timeout of a round *)
| DeclareWinner.              (* the 1500 ms timeout of the last round *)

(** A pending timer: [remaining] milliseconds until it fires, and for an
    interval the period with which it is armed again. *)
Record Timer := mkTimer {
  handle : nat;
  remaining : Z;
  period : option Z;
  callback : Callback
}.

(** The component instance together with the part of the browser it uses.
    [fired] records the callbacks run so far, oldest first; nothing reads
    it, it is there to state properties of a run.  [dispatched] tells
    whether the component has set state since it mounted: what React does
    with an updater function depends on it, see [next_round]. *)
Record World := mkWorld {
  state : State;
  activations : list Activation;
  timers : list Timer;
  nextHandle : nat;
  clock : Z;
  randomCalls : nat;
  fired : list Callback;
  dispatched : bool
}.

Definition with_state (f : State -> State) (w : World) : World :=
  mkWorld (f (state w)) (activations w) (timers w) (nextHandle w) (clock w)
    (randomCalls w) (fired w) true.

Definition with_timers (f : list Timer -> list Timer) (w : World) : World :=
  mkWorld (state w) (activations w) (f (timers w)) (nextHandle w) (clock w)
    (randomCalls w) (fired w) (dispatched w).

Definition with_activations (f : list Activation -> list Activation) (w : World) : World :=
  mkWorld (state w) (f (activations w)) (timers w) (nextHandle w) (clock w)
    (randomCalls w) (fired w) (dispatched w).

(** The state setters, each applied to an updater [prev => next].  Every
    one of them goes through [with_state], which records that state has
    been set. *)
Definition setCombatLog (f : list string -> list string) : World -> World :=
  with_state (fun s => mkState (f (combatLog s)) (currentAttacker s) (combatFinished s)
                         (winner s) (fighterStates s)).

Definition setCurrentAttacker (a : Z) : World -> World :=
  with_state (fun s => mkState (combatLog s) a (combatFinished s) (winner s)
                         (fighterStates s)).

Definition setCombatFinished (b : bool) : World -> World :=
  with_state (fun s => mkState (combatLog s) (currentAttacker s) b (winner s)
                         (fighterStates s)).

Definition setWinner (v : option Fighter) : World -> World :=
  with_state (fun s => mkState (combatLog s) (currentAttacker s) (combatFinished s) v
                         (fighterStates s)).

Definition setFighterStates (f : list FighterState -> list FighterState) : World -> World :=
  with_state (fun s => mkState (combatLog s) (currentAttacker s) (combatFinished s)
                         (winner s) (f (fighterStates s))).

(** [setTimeout(cb, ms)]: a one-shot timer under a fresh handle. *)
Definition setTimeout (cb : Callback) (ms : Z) (w : World) : World :=
  mkWorld (state w) (activations w)
    (timers w ++ [mkTimer (nextHandle w) ms None cb])
    (S (nextHandle w)) (clock w) (randomCalls w) (fired w) (dispatched w).

(** [setInterval(cb, ms)]: first due after [ms], then every [ms]. *)
Definition setInterval (cb : Callback) (ms : Z) (w : World) : World :=
  mkWorld (state w) (activations w)
    (timers w ++ [mkTimer (nextHandle w) ms (Some ms) cb])
    (S (nextHandle w)) (clock w) (randomCalls w) (fired w) (dispatched w).

(** [clearInterval(h)] (and [clearTimeout]): the timer is dropped. *)
Definition clearInterval (h : nat) : World -> World :=
  with_timers (List.filter (fun t => negb (handle t =? h)%nat)).

(** One more [Math.random()] call has been made. *)
Definition count_draw (w : World) : World :=
  mkWorld (state w) (activations w) (timers w) (nextHandle w) (clock w)
    (S (randomCalls w)) (fired w) (dispatched w).

Definition maxRounds : Z := 5.

Section Sequencer.

(** The [fighters] prop, and the results of the successive calls of
    [Math.random()] (the numerator of each, see [random_index]). *)
Variable fighters : list Fighter.
Variable Math_random : nat -> Z.

(** The initial values given to [useState]. *)
Definition initial_fighterStates : list FighterState :=
  [ mkFighterState (at_index fighters 0) false false;
    mkFighterState (at_index fighters 1) false false ].

Definition initial_state : State :=
  mkState [] 0 false None initial_fighterStates.

(** [simulateCombat]: fresh [attacker = 0] and [round = 1], and the
    interval that runs the rounds every 2500 ms. *)
Definition simulateCombat (w : World) : World :=
  let env := length (activations w) in
  let act := mkActivation 0 1 (nextHandle w) in
  setInterval (NextRound env) 2500 (with_activations (fun l => l ++ [act]) w).

(** The body of the interval callback, for the activation [env]. *)
Definition next_round (env : nat) (w : World) : World :=
  match activations w !! env with
  | None => w
  | Some act =>
      let a := attacker act in
      match at_index fighters a with
      | None => w  (* [attackerPokemon.type] throws before anything is done *)
      | Some attackerPokemon =>
          let move := getRandomMove (type attackerPokemon) (Math_random (randomCalls w)) in
          let w := count_draw w in
          (* Animate attacker.  The updater reads the variable [attacker]
             when React calls it.  React calls an updater when it renders,
             after this callback has returned and "Switch attacker" below
             has run; only the first update of a component that has not
             set state since it mounted finds the queue empty and is
             computed at once. *)
          let shown := if dispatched w then 1 - a else a in
          let w := setFighterStates
                     (imap (fun index fs =>
                        mkFighterState (fighter fs)
                          (Z.of_nat index =? shown) (Z.of_nat index =? 1 - shown))) w in
          (* Add to combat log *)
          let w := setCombatLog
                     (fun prev => prev ++
                        [capitalizeFirst (name attackerPokemon) +:+ " uses "
                           +:+ to_text move +:+ "!"]) w in
          (* Reset animations after a short delay *)
          let w := setTimeout ResetAnimations 1000 w in
          (* Check if combat should end *)
          let w := if round act >=? maxRounds
                   then setTimeout DeclareWinner 1500
                          (clearInterval (combatInterval act) w)
                   else w in
          (* Switch attacker *)
          with_activations
            (fun l => <[env := mkActivation (1 - a) (round act + 1) (combatInterval act)]> l) w
      end
  end.

(** The 1000 ms timeout of a round. *)
Definition reset_animations : World -> World :=
  setFighterStates (map (fun fs => mkFighterState (fighter fs) false false)).

(** [fighters[0].attack > fighters[1].attack ? fighters[0] : fighters[1]] *)
Definition combatWinner (f0 f1 : Fighter) : Fighter :=
  if attack f0 >? attack f1 then f0 else f1.

(** The 1500 ms timeout of the last round. *)
Definition declare_winner (w : World) : World :=
  match at_index fighters 0, at_index fighters 1 with
  | Some f0, Some f1 =>
      let cw := combatWinner f0 f1 in
      let w := setWinner (Some cw) w in
      let w := setCombatFinished true w in
      setCombatLog
        (fun prev => prev ++ [capitalizeFirst (name cw) +:+ " wins the battle!"]) w
  | _, _ => w  (* [fighters[i].attack] throws *)
  end.

Definition run_callback (cb : Callback) : World -> World :=
  match cb with
  | StartCombat => simulateCombat
  | NextRound env => next_round env
  | ResetAnimations => reset_animations
  | DeclareWinner => declare_winner
  end.

(** [restartCombat], the handler of the "Battle Again" button. *)
Definition restartCombat (w : World) : World :=
  let w := setCombatLog (fun _ => []) w in
  let w := setCurrentAttacker 0 w in
  let w := setCombatFinished false w in
  let w := setWinner None w in
  let w := setFighterStates (fun _ => initial_fighterStates) w in
  setTimeout StartCombat 500 w.

(** *** The event loop *)

(** The pending timer that fires next: the least [remaining], and among
    equals the one set first. *)
Fixpoint soonest (ts : list Timer) : option Timer :=
  match ts with
  | [] => None
  | t :: rest =>
      match soonest rest with
      | Some u => if remaining u <? remaining t then Some u else Some t
      | None => Some t
      end
  end.

(** Time passes until the next timer is due; it leaves the queue (an
    interval is armed again first, so that the callback can clear it) and
    its callback runs.  [None]: no timer is pending. *)
Definition step (w : World) : option World :=
  match soonest (timers w) with
  | None => None
  | Some t =>
      let d := remaining t in
      let others :=
        map (fun u => mkTimer (handle u) (remaining u - d) (period u) (callback u))
          (List.filter (fun u => negb (handle u =? handle t)%nat) (timers w)) in
      let again :=
        match period t with
        | Some p => [mkTimer (handle t) p (Some p) (callback t)]
        | None => []
        end in
      Some (run_callback (callback t)
              (mkWorld (state w) (activations w) (others ++ again) (nextHandle w)
                 (clock w + d) (randomCalls w) (fired w ++ [callback t])
                 (dispatched w)))
  end.

(** The world after at most [n] timers have fired. *)
Fixpoint run (n : nat) (w : World) : World :=
  match n with
  | O => w
  | S n' =>
      match step w with
      | Some w' => run n' w'
      | None => w
      end
  end.

(** *** The component *)

(** What [CombatResult] shows: the advisory [<div>], or the arena drawn
    from the component's state. *)
Inductive Rendered :=
| PleaseSelectTwo (message : string)
| Arena (w : World).

(** A component that has rendered for the first time and used nothing yet,
    and the same with [simulateCombat] armed to start after [ms]. *)
Definition blank : World :=
  mkWorld initial_state [] [] 0 0 0 [] false.

Definition arm (ms : Z) : World :=
  setTimeout StartCombat ms blank.

(** The same in a component that has set its state before, to the
    initial values: what "Battle Again" leaves, up to the handles,
    activations, draws and time already used. *)
Definition rearm (ms : Z) : World :=
  setTimeout StartCombat ms (setFighterStates (fun _ => initial_fighterStates) blank).

(** The mount effect: [setTimeout(() => { simulateCombat(); }, 1000)]. *)
Definition mounted : World := arm 1000.

(** The first render and the mount effect: the guard on [fighters.length]
    returns before any hook, so in that case there is neither state nor
    timer; otherwise the state is initialised and the effect arms
    [simulateCombat] after 1000 ms.  The text of the advisory is the
    literal of the source file byte for byte: where the name has its
    accent the file holds the bytes E2 88 9A C2 A9. *)
Definition CombatResult : Rendered :=
  if negb (length fighters =? 2)%nat
  then PleaseSelectTwo "Please select two Pok√©mon."
  else Arena mounted.

(** The log lines on screen, the timers pending and the callbacks run for
    a rendered component; the advisory has none of them. *)
Definition log_of (r : Rendered) : list string :=
  match r with
  | PleaseSelectTwo _ => []
  | Arena w => combatLog (state w)
  end.

Definition timers_of (r : Rendered) : list Timer :=
  match r with
  | PleaseSelectTwo _ => []
  | Arena w => timers w
  end.

(** The component after at most [n] timers have fired. *)
Definition run_rendered (n : nat) (r : Rendered) : Rendered :=
  match r with
  | PleaseSelectTwo m => PleaseSelectTwo m
  | Arena w => Arena (run n w)
  end.

(** The "winner" class of fighter [i]'s card:
    [winner && winner.id === fighters[i].id]. *)
Definition winner_class (w : World) (i : Z) : bool :=
  match winner (state w), at_index fighters i with
  | Some cw, Some f => id cw =? id f
  | _, _ => false
  end.

(** The announcement with the "Battle Again" button is rendered when
    [combatFinished && winner]. *)
Definition restart_exposed (w : World) : bool :=
  combatFinished (state w) && bool_decide (is_Some (winner (state w))).

End Sequencer.

(** *** Vocabulary of the statements *)

(** The line a round logs for attacker [f] when [Math.random()] drew [k]. *)
Definition attack_line (f : Fighter) (k : Z) : string :=
  capitalizeFirst (name f) +:+ " uses " +:+ to_text (getRandomMove (type f) k) +:+ "!".

(** The line logged with the verdict. *)
Definition winner_line (f : Fighter) : string :=
  capitalizeFirst (name f) +:+ " wins the battle!".

Definition is_round (cb : Callback) : bool :=
  match cb with
  | NextRound _ => true
  | _ => false
  end.

(** How many rounds have been played. *)
Definition rounds_played (w : World) : nat :=
  length (List.filter is_round (fired w)).

(** A run fires twelve timers: the start, five rounds each followed by its
    animation reset, and the verdict. *)
Definition run_length : nat := 12.

(** The Finished state as the user meets it: the verdict is in, the
    "Battle Again" button is shown, and no timer of the run is left. *)
Definition Finished (w : World) : Prop :=
  restart_exposed w = true /\ timers w = [].

(** The run of a blank component armed with delay [ms], after [n] timers
    have fired; [used] tells whether the component has set state
    before. *)
Definition canonical (fighters : list Fighter) (rnd : nat -> Z) (used : bool) (ms : Z)
  (n : nat) : World :=
  run fighters rnd n (if used then rearm fighters ms else arm fighters ms).

(** The worlds in which a run begins: the freshly mounted component, and
    a Finished one in which "Battle Again" has just been clicked. *)
Inductive begins (fighters : list Fighter) : World -> Prop :=
| begins_mount : begins fighters (mounted fighters)
| begins_restart (w : World) : Finished w -> begins fighters (restartCombat fighters w).

(** *** Samples *)

(** The sample fighters of the component's documentation. *)
Definition pikachu : Fighter := mkFighter 25 "pikachu" 55 "electric" "pikachu.png".
Definition charizard : Fighter := mkFighter 6 "charizard" 84 "fire" "charizard.png".

(** A sample source of randomness: the draw 1/2, then 3/4, then 1/2, ... *)
Definition sample_draws (n : nat) : Z :=
  if Nat.even n then 2 ^ 52 else 3 * 2 ^ 51.

(** Two catalog entries with the same attack value. *)
Definition butterfree : Fighter := mkFighter 12 "butterfree" 45 "bug" "butterfree.png".
Definition pidgey : Fighter := mkFighter 16 "pidgey" 45 "normal" "pidgey.png".

(** The table of the type "fire" and the default table, as statements
    name them. *)
Definition fire_moves : list string :=
  ["Flamethrower"; "Fire Blast"; "Ember"; "Fire Punch"].

Definition default_moves : list string :=
  ["Tackle"; "Scratch"; "Quick Attack"; "Body Slam"].

(** A draw is the numerator of a double in [0, 1). *)
Definition is_draw (k : Z) : Prop := 0 <= k < 2 ^ 53.

(** *** Translating a world

    A run that starts later in the life of the component finds handles,
    activations, draws and clock already used up to some point.  A world
    is moved along by [k] handles, the activations [acts], the time [c],
    [rc] draws and the callbacks [fd] already run. *)

Section Translation.

Variable rnd : nat -> Z.
Variables (k : nat) (acts : list Activation) (c : Z) (rc : nat) (fd : list Callback).

Definition later_draws (n : nat) : Z := rnd (rc + n).

Definition shift_callback (cb : Callback) : Callback :=
  match cb with
  | NextRound env => NextRound (length acts + env)
  | _ => cb
  end.

Definition shift_timer (t : Timer) : Timer :=
  mkTimer (k + handle t) (remaining t) (period t) (shift_callback (callback t)).

Definition shift_activation (a : Activation) : Activation :=
  mkActivation (attacker a) (round a) (k + combatInterval a).

Definition shift_world (w : World) : World :=
  mkWorld (state w) (acts ++ (shift_activation <$> activations w))
    (shift_timer <$> timers w) (k + nextHandle w) (c + clock w)
    (rc + randomCalls w) (fd ++ (shift_callback <$> fired w)) (dispatched w).

End Translation.

(** *** General facts about the event loop *)

(** Reduces the field reads of records that are written out. *)
Ltac fields :=
  cbn [state activations timers nextHandle clock randomCalls fired dispatched
       combatLog currentAttacker combatFinished winner fighterStates].

(** Closes a conjunction of equations that hold by evaluation. *)
Ltac eval_refl :=
  cbv -[getRandomMove capitalizeFirst to_text String.append combatWinner];
  reflexivity.

Ltac conj_refl :=
  lazymatch goal with
  | |- _ /\ _ => split; [eval_refl | conj_refl]
  | |- _ => eval_refl
  end.

Section Loop.

Variable fighters : list Fighter.
Variable rnd : nat -> Z.

Lemma run_idle (n : nat) (w : World) :
  step fighters rnd w = None -> run fighters rnd n w = w.
Proof.
  intros Hidle. destruct n as [|n]; simpl; [reflexivity|].
  now rewrite Hidle.
Qed.

Lemma run_plus (a b : nat) (w : World) :
  run fighters rnd (a + b) w = run fighters rnd b (run fighters rnd a w).
Proof.
  revert w. induction a as [|a IH]; intros w; simpl; [reflexivity|].
  destruct (step fighters rnd w) as [w'|] eqn:Hs; [apply IH|].
  symmetry. now apply run_idle.
Qed.

Lemma soonest_nil_iff (ts : list Timer) : soonest ts = None <-> ts = [].
Proof.
  split; [|intros ->; reflexivity].
  destruct ts as [|t rest]; [reflexivity|]. simpl.
  destruct (soonest rest) as [u|]; [destruct (remaining u <? remaining t)|]; discriminate.
Qed.

Lemma step_none_iff (w : World) : step fighters rnd w = None <-> timers w = [].
Proof.
  unfold step. rewrite <- soonest_nil_iff.
  destruct (soonest (timers w)); split; intros; congruence.
Qed.

(** A round whose attacker exists logs exactly one line, the attacker's,
    and hands the attack to the other participant for the round after. *)
Lemma next_round_effect (env : nat) (w : World) (act : Activation) (f : Fighter) :
  activations w !! env = Some act ->
  at_index fighters (attacker act) = Some f ->
  let w' := next_round fighters rnd env w in
  combatLog (state w') = combatLog (state w) ++ [attack_line f (rnd (randomCalls w))] /\
  activations w' !! env
    = Some (mkActivation (1 - attacker act) (round act + 1) (combatInterval act)) /\
  randomCalls w' = S (randomCalls w).
Proof.
  intros Hact Hf. unfold next_round. rewrite Hact, Hf.
  assert (Hlt : (env < length (activations w))%nat) by (eapply lookup_lt_Some; eassumption).
  destruct (round act >=? maxRounds); simpl;
    (split; [reflexivity|split; [|reflexivity]]);
    now apply list_lookup_insert_eq.
Qed.

(** The restart handler puts every piece of state back to its initial
    value, whatever the state was. *)
Lemma restartCombat_state (w : World) :
  state (restartCombat fighters w) = initial_state fighters.
Proof. reflexivity. Qed.

End Loop.

(** *** Every run is a translate of the first *)

(** The event loop does not depend on where the counters of handles,
    activations, draws and time stand: translating a world commutes with
    every step. *)
Section StepCommutes.

Variable fighters : list Fighter.
Variable rnd : nat -> Z.
Variables (k : nat) (acts : list Activation) (c : Z) (rc : nat) (fd : list Callback).

Lemma soonest_shift (ts : list Timer) :
  soonest (shift_timer k acts <$> ts) = shift_timer k acts <$> soonest ts.
Proof.
  induction ts as [|t ts IH]; [reflexivity|].
  simpl.
  change (soonest (shift_timer k acts <$> ts))
    with (soonest (list_fmap _ _ (shift_timer k acts) ts)) in IH.
  rewrite IH. destruct (soonest ts) as [u|]; simpl; [|reflexivity].
  destruct (remaining u <? remaining t); reflexivity.
Qed.

Lemma filter_shift (h : nat) (ts : list Timer) :
  List.filter (fun u => negb (handle u =? k + h)%nat) (shift_timer k acts <$> ts)
  = shift_timer k acts <$> List.filter (fun u => negb (handle u =? h)%nat) ts.
Proof.
  induction ts as [|t ts IH]; [reflexivity|].
  simpl.
  change (list_fmap _ _ (shift_timer k acts) ts) with (shift_timer k acts <$> ts).
  rewrite IH.
  replace (k + handle t =? k + h)%nat with (handle t =? h)%nat.
  - destruct (handle t =? h)%nat; reflexivity.
  - destruct (Nat.eqb_spec (handle t) h) as [->|Hne].
    + symmetry. apply Nat.eqb_refl.
    + symmetry. apply Nat.eqb_neq. lia.
Qed.

Lemma simulateCombat_shift (w : World) :
  simulateCombat (shift_world k acts c rc fd w)
  = shift_world k acts c rc fd (simulateCombat w).
Proof.
  unfold simulateCombat, setInterval, with_activations, shift_world. fields.
  rewrite !length_app, !length_fmap, !fmap_app, <- !app_assoc. simpl.
  rewrite Nat.add_succ_r. reflexivity.
Qed.

Lemma with_state_shift (f : State -> State) (w : World) :
  with_state f (shift_world k acts c rc fd w) = shift_world k acts c rc fd (with_state f w).
Proof. reflexivity. Qed.

Lemma count_draw_shift (w : World) :
  count_draw (shift_world k acts c rc fd w) = shift_world k acts c rc fd (count_draw w).
Proof.
  unfold count_draw, shift_world. fields. rewrite Nat.add_succ_r. reflexivity.
Qed.

Lemma setTimeout_shift (cb : Callback) (ms : Z) (w : World) :
  is_round cb = false ->
  setTimeout cb ms (shift_world k acts c rc fd w)
  = shift_world k acts c rc fd (setTimeout cb ms w).
Proof.
  intros Hcb. unfold setTimeout, shift_world. fields.
  rewrite fmap_app, Nat.add_succ_r. destruct cb; [reflexivity|discriminate|reflexivity..].
Qed.

Lemma clearInterval_shift (h : nat) (w : World) :
  clearInterval (k + h) (shift_world k acts c rc fd w)
  = shift_world k acts c rc fd (clearInterval h w).
Proof.
  unfold clearInterval, with_timers, shift_world. fields.
  rewrite filter_shift. reflexivity.
Qed.

Lemma set_activation_shift (env : nat) (a : Activation) (w : World) :
  with_activations (fun l => <[(length acts + env)%nat := shift_activation k a]> l)
    (shift_world k acts c rc fd w)
  = shift_world k acts c rc fd (with_activations (fun l => <[env := a]> l) w).
Proof.
  unfold with_activations, shift_world. fields.
  rewrite insert_app_r, list_fmap_insert. reflexivity.
Qed.

Lemma next_round_shift (env : nat) (w : World) :
  next_round fighters rnd (length acts + env) (shift_world k acts c rc fd w)
  = shift_world k acts c rc fd (next_round fighters (later_draws rnd rc) env w).
Proof.
  unfold next_round.
  replace (activations (shift_world k acts c rc fd w) !! (length acts + env)%nat)
    with (shift_activation k <$> activations w !! env).
  2:{ unfold shift_world. fields. rewrite lookup_app_r by lia.
      replace (length acts + env - length acts)%nat with env by lia.
      now rewrite list_lookup_fmap. }
  destruct (activations w !! env) as [act|]; cbn [fmap option_fmap option_map];
    [|reflexivity].
  cbn [shift_activation attacker round combatInterval].
  destruct (at_index fighters (attacker act)) as [attackerPokemon|]; [|reflexivity].
  unfold later_draws.
  change (randomCalls (shift_world k acts c rc fd w)) with (rc + randomCalls w)%nat.
  change (mkActivation (1 - attacker act) (round act + 1) (k + combatInterval act))
    with (shift_activation k (mkActivation (1 - attacker act) (round act + 1) (combatInterval act))).
  unfold setFighterStates, setCombatLog.
  rewrite count_draw_shift, !with_state_shift, (setTimeout_shift ResetAnimations) by reflexivity.
  destruct (round act >=? maxRounds).
  - rewrite clearInterval_shift, (setTimeout_shift DeclareWinner) by reflexivity.
    apply set_activation_shift.
  - apply set_activation_shift.
Qed.

Lemma run_callback_shift (cb : Callback) (w : World) :
  run_callback fighters rnd (shift_callback acts cb) (shift_world k acts c rc fd w)
  = shift_world k acts c rc fd (run_callback fighters (later_draws rnd rc) cb w).
Proof.
  destruct cb as [|env| |]; simpl.
  - apply simulateCombat_shift.
  - apply next_round_shift.
  - reflexivity.
  - unfold declare_winner.
    destruct (at_index fighters 0), (at_index fighters 1); reflexivity.
Qed.

Lemma before_callback_shift (w : World) (t : Timer) :
  mkWorld (state (shift_world k acts c rc fd w)) (activations (shift_world k acts c rc fd w))
    (((fun u => mkTimer (handle u) (remaining u - remaining (shift_timer k acts t)) (period u) (callback u))
        <$> List.filter (fun u => negb (handle u =? handle (shift_timer k acts t))%nat)
              (timers (shift_world k acts c rc fd w)))
     ++ match period (shift_timer k acts t) with
        | Some p => [mkTimer (handle (shift_timer k acts t)) p (Some p) (callback (shift_timer k acts t))]
        | None => []
        end)
    (nextHandle (shift_world k acts c rc fd w)) (clock (shift_world k acts c rc fd w) + remaining (shift_timer k acts t))
    (randomCalls (shift_world k acts c rc fd w)) (fired (shift_world k acts c rc fd w) ++ [callback (shift_timer k acts t)])
    (dispatched (shift_world k acts c rc fd w))
  = shift_world k acts c rc fd
      (mkWorld (state w) (activations w)
         (((fun u => mkTimer (handle u) (remaining u - remaining t) (period u) (callback u))
             <$> List.filter (fun u => negb (handle u =? handle t)%nat) (timers w))
          ++ match period t with
             | Some p => [mkTimer (handle t) p (Some p) (callback t)]
             | None => []
             end)
         (nextHandle w) (clock w + remaining t) (randomCalls w) (fired w ++ [callback t])
         (dispatched w)).
Proof.
  unfold shift_world. fields. cbn [shift_timer handle remaining period callback].
  rewrite filter_shift. f_equal.
  - rewrite fmap_app. f_equal.
    + rewrite <- !list_fmap_compose. reflexivity.
    + destruct (period t); reflexivity.
  - lia.
  - rewrite fmap_app, app_assoc. reflexivity.
Qed.

Lemma step_shift (w : World) :
  step fighters rnd (shift_world k acts c rc fd w)
  = shift_world k acts c rc fd <$> step fighters (later_draws rnd rc) w.
Proof.
  unfold step.
  change (timers (shift_world k acts c rc fd w)) with (shift_timer k acts <$> timers w) at 1.
  rewrite soonest_shift.
  destruct (soonest (timers w)) as [t|]; cbn [fmap option_fmap option_map];
    [|reflexivity].
  f_equal. rewrite <- run_callback_shift.
  change (list_fmap Timer Timer) with (@fmap list _ Timer Timer).
  rewrite <- before_callback_shift. reflexivity.
Qed.

Lemma run_shift (n : nat) (w : World) :
  run fighters rnd n (shift_world k acts c rc fd w)
  = shift_world k acts c rc fd (run fighters (later_draws rnd rc) n w).
Proof.
  revert w. induction n as [|n IH]; intros w; simpl; [reflexivity|].
  rewrite step_shift.
  destruct (step fighters (later_draws rnd rc) w) as [w'|]; cbn [fmap option_fmap option_map];
    [apply IH|reflexivity].
Qed.

End StepCommutes.


Section Projections.

Variables (k : nat) (acts : list Activation) (c : Z) (rc : nat) (fd : list Callback).

Lemma state_shift (w : World) : state (shift_world k acts c rc fd w) = state w.
Proof. reflexivity. Qed.

Lemma timers_shift_nil (w : World) :
  timers w = [] -> timers (shift_world k acts c rc fd w) = [].
Proof. unfold shift_world. fields. intros ->. reflexivity. Qed.

Lemma fired_shift_snoc (w w' : World) (cb : Callback) :
  fired w' = fired w ++ [cb] ->
  fired (shift_world k acts c rc fd w')
  = fired (shift_world k acts c rc fd w) ++ [shift_callback acts cb].
Proof.
  unfold shift_world. fields. intros ->. rewrite fmap_app, app_assoc. reflexivity.
Qed.

Lemma activations_shift_lookup (w : World) (env : nat) :
  activations (shift_world k acts c rc fd w) !! (length acts + env)%nat
  = shift_activation k <$> activations w !! env.
Proof.
  unfold shift_world. fields. rewrite lookup_app_r by lia.
  replace (length acts + env - length acts)%nat with env by lia.
  apply list_lookup_fmap.
Qed.

Lemma rounds_played_shift (w : World) :
  rounds_played (shift_world k acts c rc fd w)
  = (length (List.filter is_round fd) + rounds_played w)%nat.
Proof.
  unfold rounds_played, shift_world. fields.
  rewrite List.filter_app, length_app. f_equal.
  induction (fired w) as [|cb l IH]; [reflexivity|].
  rewrite fmap_cons. simpl. destruct cb; simpl; rewrite ?IH; reflexivity.
Qed.

End Projections.

Lemma shift_world_blank (w : World) : shift_world 0 [] 0 0 [] w = w.
Proof.
  destruct w as [st acts ts nh ck rc fd dp]. unfold shift_world. fields.
  assert (Ha : shift_activation 0 <$> acts = acts).
  { induction acts as [|[a r h] l IH]; [reflexivity|].
    rewrite fmap_cons, IH. reflexivity. }
  assert (Hc : forall l : list Callback, shift_callback [] <$> l = l).
  { induction l as [|cb l IH]; [reflexivity|].
    rewrite fmap_cons, IH. destruct cb; reflexivity. }
  assert (Ht : shift_timer 0 [] <$> ts = ts).
  { induction ts as [|[h r p cb] l IH]; [reflexivity|].
    rewrite fmap_cons, IH. unfold shift_timer. simpl.
    destruct cb; reflexivity. }
  rewrite Ha, Hc, Ht. reflexivity.
Qed.

Lemma restartCombat_translate (fighters : list Fighter) (w : World) :
  timers w = [] ->
  restartCombat fighters w
  = shift_world (nextHandle w) (activations w) (clock w) (randomCalls w) (fired w)
      (rearm fighters 500).
Proof.
  destruct w as [st acts ts nh ck rc fd dp]. simpl. intros ->.
  unfold restartCombat, rearm, blank, shift_world, setTimeout, setFighterStates, setWinner,
    setCombatFinished, setCurrentAttacker, setCombatLog, with_state. fields.
  simpl. unfold shift_timer. simpl.
  rewrite !app_nil_r, !Nat.add_0_r, Z.add_0_r, Nat.add_1_r. reflexivity.
Qed.

(** Every run is the translate of a run that starts in a blank component. *)
Lemma run_begins (fighters : list Fighter) (rnd : nat -> Z) (w0 : World) :
  begins fighters w0 ->
  exists used ms k c,
    forall n,
      run fighters rnd n w0
      = shift_world k (activations w0) c (randomCalls w0) (fired w0)
          (canonical fighters (later_draws rnd (randomCalls w0)) used ms n).
Proof.
  intros [|w [_ Hquiet]].
  - exists false, 1000, 0%nat, 0. intros n. rewrite shift_world_blank. reflexivity.
  - exists true, 500, (nextHandle w), (clock w). intros n.
    rewrite (restartCombat_translate fighters w Hquiet) at 1.
    apply run_shift.
Qed.

(** *** The run of a blank component *)

Section Canonical.

Variables (f0 f1 : Fighter) (rnd : nat -> Z) (used : bool) (ms : Z).

Lemma canonical_unfinished (n : nat) :
  (n < run_length)%nat -> combatFinished (state (canonical [f0; f1] rnd used ms n)) = false.
Proof.
  unfold run_length. intros Hn.
  destruct used; do 12 (destruct n as [|n]; [eval_refl|]); lia.
Qed.

Lemma canonical_final_state :
  state (canonical [f0; f1] rnd used ms run_length)
  = mkState
      ([ attack_line f0 (rnd 0%nat); attack_line f1 (rnd 1%nat);
         attack_line f0 (rnd 2%nat); attack_line f1 (rnd 3%nat);
         attack_line f0 (rnd 4%nat) ] ++ [ winner_line (combatWinner f0 f1) ])
      0 true (Some (combatWinner f0 f1)) (initial_fighterStates [f0; f1]).
Proof. destruct used; eval_refl. Qed.

Lemma canonical_final_timers : timers (canonical [f0; f1] rnd used ms run_length) = [].
Proof. destruct used; eval_refl. Qed.

Lemma canonical_final_rounds : rounds_played (canonical [f0; f1] rnd used ms run_length) = 5%nat.
Proof. destruct used; eval_refl. Qed.

(** Round [i] is the [2 i]-th timer to fire. *)
Lemma canonical_round (i : nat) :
  (1 <= i <= 5)%nat ->
  exists f,
    activations (canonical [f0; f1] rnd used ms (2 * i - 1)) !! 0%nat
      = Some (mkActivation ((Z.of_nat i - 1) mod 2) (Z.of_nat i) 1) /\
    at_index [f0; f1] ((Z.of_nat i - 1) mod 2) = Some f /\
    fired (canonical [f0; f1] rnd used ms (2 * i)) = fired (canonical [f0; f1] rnd used ms (2 * i - 1)) ++ [NextRound 0] /\
    combatLog (state (canonical [f0; f1] rnd used ms (2 * i)))
      = combatLog (state (canonical [f0; f1] rnd used ms (2 * i - 1))) ++ [attack_line f (rnd (i - 1)%nat)] /\
    length (combatLog (state (canonical [f0; f1] rnd used ms (2 * i)))) = i.
Proof.
  intros Hi.
  assert (Hcases : i = 1%nat \/ i = 2%nat \/ i = 3%nat \/ i = 4%nat \/ i = 5%nat) by lia.
  destruct Hcases as [-> | [-> | [-> | [-> | ->]]]].
  - exists f0. destruct used; conj_refl.
  - exists f1. destruct used; conj_refl.
  - exists f0. destruct used; conj_refl.
  - exists f1. destruct used; conj_refl.
  - exists f0. destruct used; conj_refl.
Qed.

End Canonical.

(** *** Every run *)

Lemma run_quiet_stays (fighters : list Fighter) (rnd : nat -> Z) (w : World) (m n : nat) :
  timers (run fighters rnd m w) = [] -> (m <= n)%nat ->
  run fighters rnd n w = run fighters rnd m w.
Proof.
  intros Hquiet Hle. replace n with (m + (n - m))%nat by lia.
  rewrite run_plus. apply run_idle. now apply step_none_iff.
Qed.

(** C2.  Take two fighters and any sequence of random draws, and a world
    in which a run begins (the component just mounted, or "Battle Again"
    just clicked in a Finished world).  The run is over when twelve timers
    have fired: until then the combat is not finished; then it is finished,
    no timer is pending and nothing changes any more.  Exactly five rounds
    have been played, and the log holds exactly six lines: the five attack
    lines followed by the winner line.  The world reached is Finished, so
    the same holds for the run that a restart begins there. *)
Theorem complete_run_five_rounds_six_lines
  (f0 f1 : Fighter) (rnd : nat -> Z) (w0 : World) :
  begins [f0; f1] w0 ->
  let fighters := [f0; f1] in
  let r := randomCalls w0 in
  let final := run fighters rnd run_length w0 in
  CombatResult fighters = Arena (mounted fighters) /\
  (forall n, (n < run_length)%nat ->
     combatFinished (state (run fighters rnd n w0)) = false) /\
  combatFinished (state final) = true /\
  timers final = [] /\
  (forall n, (run_length <= n)%nat -> run fighters rnd n w0 = final) /\
  rounds_played final = (rounds_played w0 + 5)%nat /\
  length (combatLog (state final)) = 6%nat /\
  combatLog (state final)
    = [ attack_line f0 (rnd r); attack_line f1 (rnd (r + 1)%nat);
        attack_line f0 (rnd (r + 2)%nat); attack_line f1 (rnd (r + 3)%nat);
        attack_line f0 (rnd (r + 4)%nat) ] ++ [ winner_line (combatWinner f0 f1) ] /\
  Finished final.
Proof.
  intros Hbegins fighters r final. subst fighters r.
  destruct (run_begins [f0; f1] rnd w0 Hbegins) as (used & ms & k & c & Hrun).
  assert (Hstate : state final
                   = state (canonical [f0; f1] (later_draws rnd (randomCalls w0)) used ms run_length)).
  { subst final. rewrite Hrun. apply state_shift. }
  assert (Htimers : timers final = []).
  { subst final. rewrite Hrun. apply timers_shift_nil. apply canonical_final_timers. }
  rewrite canonical_final_state in Hstate.
  split; [unfold CombatResult; reflexivity|].
  split.
  { intros n Hn. rewrite Hrun, state_shift. now apply canonical_unfinished. }
  split; [rewrite Hstate; reflexivity|].
  split; [exact Htimers|].
  split.
  { intros n Hn. now apply run_quiet_stays. }
  split.
  { subst final. rewrite Hrun, rounds_played_shift, canonical_final_rounds. reflexivity. }
  split; [rewrite Hstate; reflexivity|].
  split.
  { rewrite Hstate. unfold later_draws. fields. rewrite Nat.add_0_r. reflexivity. }
  split; [|exact Htimers].
  unfold restart_exposed. rewrite Hstate. reflexivity.
Qed.

Lemma complete_run_five_rounds_six_lines_witness :
  let fighters := [pikachu; charizard] in
  let final := run fighters sample_draws run_length (mounted fighters) in
  let again := run fighters sample_draws run_length (restartCombat fighters final) in
  begins fighters (mounted fighters) /\
  combatLog (state final)
    = [ "Pikachu uses Thunder Shock!"; "Charizard uses Fire Punch!";
        "Pikachu uses Thunder Shock!"; "Charizard uses Fire Punch!";
        "Pikachu uses Thunder Shock!"; "Charizard wins the battle!" ] /\
  begins fighters (restartCombat fighters final) /\
  combatLog (state again)
    = [ "Pikachu uses Quick Attack!"; "Charizard uses Ember!";
        "Pikachu uses Quick Attack!"; "Charizard uses Ember!";
        "Pikachu uses Quick Attack!"; "Charizard wins the battle!" ] /\
  rounds_played again = 10%nat.
Proof.
  cbv zeta.
  destruct (complete_run_five_rounds_six_lines pikachu charizard sample_draws
              (mounted [pikachu; charizard]) (begins_mount _))
    as (_ & _ & _ & _ & _ & Hrounds & _ & Hlog & Hfinished).
  destruct (complete_run_five_rounds_six_lines pikachu charizard sample_draws
              _ (begins_restart _ _ Hfinished))
    as (_ & _ & _ & _ & _ & Hrounds' & _ & Hlog' & _).
  split; [apply begins_mount|].
  split; [rewrite Hlog; vm_compute; reflexivity|].
  split; [apply begins_restart; exact Hfinished|].
  split; [rewrite Hlog'; vm_compute; reflexivity|].
  rewrite Hrounds'. vm_compute. reflexivity.
Defined.

(** C6.  In every run, round [i] (1 to 5) is the [2 i]-th timer to fire.
    When it fires the run's round counter is [i] and its attacker is
    participant [(i - 1) mod 2]; the round appends exactly one line to the
    log, "<Capitalized attacker name> uses <move>!" with the move selected
    for the attacker's type, which makes [i] lines. *)
Theorem rounds_alternate_and_log_one_line
  (f0 f1 : Fighter) (rnd : nat -> Z) (w0 : World) (i : nat) :
  begins [f0; f1] w0 ->
  (1 <= i <= 5)%nat ->
  let fighters := [f0; f1] in
  let env := length (activations w0) in
  let before := run fighters rnd (2 * i - 1) w0 in
  let after := run fighters rnd (2 * i) w0 in
  exists act f,
    activations before !! env = Some act /\
    round act = Z.of_nat i /\
    attacker act = (Z.of_nat i - 1) mod 2 /\
    at_index fighters (attacker act) = Some f /\
    fired after = fired before ++ [NextRound env] /\
    combatLog (state after)
      = combatLog (state before) ++ [attack_line f (rnd (randomCalls w0 + (i - 1))%nat)] /\
    length (combatLog (state after)) = i.
Proof.
  intros Hbegins Hi fighters env before after. subst fighters.
  destruct (run_begins [f0; f1] rnd w0 Hbegins) as (used & ms & k & c & Hrun).
  destruct (canonical_round f0 f1 (later_draws rnd (randomCalls w0)) used ms i Hi)
    as (f & Hact & Hf & Hfired & Hlog & Hlen).
  exists (shift_activation k (mkActivation ((Z.of_nat i - 1) mod 2) (Z.of_nat i) 1)), f.
  subst before after. rewrite !Hrun, !state_shift.
  split.
  { subst env. rewrite <- (Nat.add_0_r (length (activations w0))).
    rewrite activations_shift_lookup, Hact. reflexivity. }
  split; [reflexivity|]. split; [reflexivity|]. split; [exact Hf|].
  split.
  { subst env.
    replace (NextRound (length (activations w0)))
      with (shift_callback (activations w0) (NextRound 0))
      by (simpl; rewrite Nat.add_0_r; reflexivity).
    now apply fired_shift_snoc. }
  split; [exact Hlog|exact Hlen].
Qed.

Lemma rounds_alternate_and_log_one_line_witness :
  begins [pikachu; charizard] (mounted [pikachu; charizard]) /\
  (1 <= 3 <= 5)%nat /\
  combatLog (state (run [pikachu; charizard] sample_draws (2 * 3) (mounted [pikachu; charizard])))
    = [ "Pikachu uses Thunder Shock!"; "Charizard uses Fire Punch!";
        "Pikachu uses Thunder Shock!" ].
Proof.
  split; [apply begins_mount|]. split; [lia|].
  destruct (rounds_alternate_and_log_one_line pikachu charizard sample_draws
              (mounted [pikachu; charizard]) 3 (begins_mount _))
    as (act & f & _ & _ & Hatt & Hf & _ & Hlog & _); [lia|].
  rewrite Hlog. rewrite Hatt in Hf. injection Hf as <-. vm_compute. reflexivity.
Defined.

(** *** The verdict *)

Lemma winner_every_run (f0 f1 : Fighter) (rnd : nat -> Z) (w0 : World) :
  begins [f0; f1] w0 ->
  let final := run [f0; f1] rnd run_length w0 in
  winner (state final) = Some (combatWinner f0 f1) /\
  last (combatLog (state final)) = Some (winner_line (combatWinner f0 f1)).
Proof.
  intros Hbegins final.
  destruct (run_begins [f0; f1] rnd w0 Hbegins) as (used & ms & k & c & Hrun).
  subst final. rewrite Hrun, state_shift, canonical_final_state. split; reflexivity.
Qed.

(** C1, as the code has it.  When a run is over the declared winner is the
    fighter with the greater attack value, and the winner line names it;
    when both attack values are equal the second participant,
    [fighters[1]], is declared winner. *)
Theorem winner_has_greater_attack_second_wins_ties
  (f0 f1 : Fighter) (rnd : nat -> Z) (w0 : World) :
  begins [f0; f1] w0 ->
  let final := run [f0; f1] rnd run_length w0 in
  (attack f0 > attack f1 ->
     winner (state final) = Some f0 /\
     last (combatLog (state final)) = Some (winner_line f0)) /\
  (attack f0 < attack f1 ->
     winner (state final) = Some f1 /\
     last (combatLog (state final)) = Some (winner_line f1)) /\
  (attack f0 = attack f1 ->
     winner (state final) = Some f1 /\
     last (combatLog (state final)) = Some (winner_line f1)).
Proof.
  intros Hbegins final.
  pose proof (winner_every_run f0 f1 rnd w0 Hbegins) as Hverdict.
  fold final in Hverdict. unfold combatWinner in Hverdict.
  split; [|split]; intros H.
  - replace (attack f0 >? attack f1) with true in Hverdict
      by (symmetry; apply Z.gtb_lt; lia).
    exact Hverdict.
  - replace (attack f0 >? attack f1) with false in Hverdict
      by (symmetry; rewrite Z.gtb_ltb; apply Z.ltb_ge; lia).
    exact Hverdict.
  - replace (attack f0 >? attack f1) with false in Hverdict
      by (symmetry; rewrite Z.gtb_ltb; apply Z.ltb_ge; lia).
    exact Hverdict.
Qed.

Lemma winner_has_greater_attack_second_wins_ties_witness :
  (begins [charizard; pikachu] (mounted [charizard; pikachu]) /\
   attack charizard > attack pikachu /\
   winner (state (run [charizard; pikachu] sample_draws run_length
                    (mounted [charizard; pikachu]))) = Some charizard) /\
  (attack pikachu < attack charizard /\
   winner (state (run [pikachu; charizard] sample_draws run_length
                    (mounted [pikachu; charizard]))) = Some charizard) /\
  (attack butterfree = attack pidgey /\
   winner (state (run [butterfree; pidgey] sample_draws run_length
                    (mounted [butterfree; pidgey]))) = Some pidgey).
Proof.
  split; [|split].
  - split; [apply begins_mount|]. split; [vm_compute; reflexivity|].
    destruct (winner_has_greater_attack_second_wins_ties charizard pikachu sample_draws
                _ (begins_mount _)) as (Hgt & _ & _).
    apply Hgt. vm_compute; reflexivity.
  - split; [vm_compute; reflexivity|].
    destruct (winner_has_greater_attack_second_wins_ties pikachu charizard sample_draws
                _ (begins_mount _)) as (_ & Hlt & _).
    apply Hlt. vm_compute; reflexivity.
  - split; [reflexivity|].
    destruct (winner_has_greater_attack_second_wins_ties butterfree pidgey sample_draws
                _ (begins_mount _)) as (_ & _ & Heq).
    apply Heq. reflexivity.
Defined.

(** C1 as the specification words it fails: with equal attack values the
    first participant is not the declared winner.  Butterfree and Pidgey
    both have attack 45; with Butterfree as [fighters[0]] the run that
    follows the mount declares Pidgey, names it in the winner line and
    flags its card alone. *)
Lemma tie_first_participant_not_winner :
  let fighters := [butterfree; pidgey] in
  let final := run fighters sample_draws run_length (mounted fighters) in
  attack butterfree = attack pidgey /\
  winner (state final) = Some pidgey /\
  winner (state final) <> Some butterfree /\
  last (combatLog (state final)) = Some "Pidgey wins the battle!" /\
  winner_class fighters final 0 = false /\
  winner_class fighters final 1 = true /\
  ~ (forall f0 f1 rnd w0,
       begins [f0; f1] w0 ->
       attack f0 = attack f1 ->
       winner (state (run [f0; f1] rnd run_length w0)) = Some f0).
Proof.
  cbv zeta.
  assert (Hw : winner (state (run [butterfree; pidgey] sample_draws run_length
                                (mounted [butterfree; pidgey]))) = Some pidgey)
    by (vm_compute; reflexivity).
  split; [reflexivity|]. split; [exact Hw|].
  split; [rewrite Hw; discriminate|].
  split; [vm_compute; reflexivity|].
  split; [vm_compute; reflexivity|].
  split; [vm_compute; reflexivity|].
  intros Hclaim.
  specialize (Hclaim butterfree pidgey sample_draws _ (begins_mount _) eq_refl).
  rewrite Hw in Hclaim. discriminate Hclaim.
Qed.

(** C3.  When a run is over the declared winner is one of the two
    participants and its attack value is greater than or equal to the
    other's; with attack values (55, 84) the participant with 84 is
    declared winner, in either order. *)
Theorem winner_attack_ge_other (f0 f1 : Fighter) (rnd : nat -> Z) (w0 : World) :
  begins [f0; f1] w0 ->
  let final := run [f0; f1] rnd run_length w0 in
  (exists cw other,
     winner (state final) = Some cw /\
     ((cw = f0 /\ other = f1) \/ (cw = f1 /\ other = f0)) /\
     attack cw >= attack other) /\
  (attack f0 = 55 -> attack f1 = 84 -> winner (state final) = Some f1) /\
  (attack f0 = 84 -> attack f1 = 55 -> winner (state final) = Some f0).
Proof.
  intros Hbegins final.
  destruct (winner_every_run f0 f1 rnd w0 Hbegins) as [Hwinner _].
  fold final in Hwinner. rewrite Hwinner. unfold combatWinner.
  split; [|split].
  - destruct (attack f0 >? attack f1) eqn:Hgt.
    + exists f0, f1. split; [reflexivity|]. split; [now left|].
      apply Z.gtb_lt in Hgt. lia.
    + exists f1, f0. split; [reflexivity|]. split; [now right|].
      rewrite Z.gtb_ltb in Hgt. apply Z.ltb_ge in Hgt. lia.
  - intros -> ->. reflexivity.
  - intros -> ->. reflexivity.
Qed.

Lemma winner_attack_ge_other_witness :
  begins [pikachu; charizard] (mounted [pikachu; charizard]) /\
  attack pikachu = 55 /\ attack charizard = 84 /\
  winner (state (run [pikachu; charizard] sample_draws run_length
                   (mounted [pikachu; charizard]))) = Some charizard /\
  winner (state (run [charizard; pikachu] sample_draws run_length
                   (mounted [charizard; pikachu]))) = Some charizard.
Proof.
  split; [apply begins_mount|].
  split; [reflexivity|]. split; [reflexivity|]. split.
  - destruct (winner_attack_ge_other pikachu charizard sample_draws _ (begins_mount _))
      as (_ & H & _).
    apply H; reflexivity.
  - destruct (winner_attack_ge_other charizard pikachu sample_draws _ (begins_mount _))
      as (_ & _ & H).
    apply H; reflexivity.
Defined.

(** *** The guard on the number of fighters *)

(** C4.  With any number of fighters other than two the component renders
    the advisory, whose text stands here byte for byte as the source file
    holds it: it has set no timer, so nothing ever runs and it stays as
    it is, and no log line exists. *)
Theorem CombatResult_needs_two_fighters
  (fighters : list Fighter) (rnd : nat -> Z) (n : nat) :
  length fighters <> 2%nat ->
  CombatResult fighters = PleaseSelectTwo "Please select two Pok√©mon." /\
  timers_of (CombatResult fighters) = [] /\
  run_rendered fighters rnd n (CombatResult fighters) = CombatResult fighters /\
  log_of (run_rendered fighters rnd n (CombatResult fighters)) = [].
Proof.
  intros Hlen. unfold CombatResult.
  destruct (length fighters =? 2)%nat eqn:Heq.
  - apply Nat.eqb_eq in Heq. contradiction.
  - simpl. repeat split.
Qed.

Lemma CombatResult_needs_two_fighters_witness :
  (length (@nil Fighter) <> 2%nat /\
   run_rendered [] sample_draws 20 (CombatResult [])
   = PleaseSelectTwo "Please select two Pok√©mon.") /\
  (length [pikachu; charizard; pidgey] <> 2%nat /\
   log_of (run_rendered [pikachu; charizard; pidgey] sample_draws 20
             (CombatResult [pikachu; charizard; pidgey])) = []).
Proof.
  split.
  - split; [simpl; lia|].
    destruct (CombatResult_needs_two_fighters [] sample_draws 20) as (H1 & _ & H2 & _);
      [simpl; lia|].
    rewrite H2. exact H1.
  - split; [simpl; lia|].
    apply (CombatResult_needs_two_fighters [pikachu; charizard; pidgey] sample_draws 20).
    simpl; lia.
Defined.

(** *** Restart *)

(** With a single timer pending, that timer fires. *)
Lemma step_single_timer (fighters : list Fighter) (rnd : nat -> Z) (w : World) (t : Timer) :
  timers w = [t] ->
  step fighters rnd w
  = Some (run_callback fighters rnd (callback t)
            (mkWorld (state w) (activations w)
               match period t with
               | Some p => [mkTimer (handle t) p (Some p) (callback t)]
               | None => []
               end
               (nextHandle w) (clock w + remaining t) (randomCalls w)
               (fired w ++ [callback t]) (dispatched w))).
Proof.
  intros Ht. unfold step. rewrite Ht. simpl.
  rewrite Nat.eqb_refl. reflexivity.
Qed.

(** C9.  In a Finished world the restart handler puts the state back to
    its initial value: the log is empty, no fighter is attacking or hit,
    the combat is not finished and there is no winner.  The next timer to
    fire is the re-armed start: it leaves that state untouched and gives
    the new run its own round counter, at 1, with participant 0 to attack.
    Only the timer after that, the first round of the new run, appends a
    log line, and the log then holds that line alone. *)
Theorem restartCombat_resets_before_new_log_line
  (f0 f1 : Fighter) (rnd : nat -> Z) (w : World) :
  Finished w ->
  let fighters := [f0; f1] in
  let restarted := restartCombat fighters w in
  state restarted = initial_state fighters /\
  combatLog (state restarted) = [] /\
  combatFinished (state restarted) = false /\
  winner (state restarted) = None /\
  Forall (fun fs => isAttacking fs = false /\ isHit fs = false)
    (fighterStates (state restarted)) /\
  exists armed first,
    step fighters rnd restarted = Some armed /\
    fired armed = fired w ++ [StartCombat] /\
    state armed = initial_state fighters /\
    activations armed !! length (activations w)
      = Some (mkActivation 0 1 (S (nextHandle w))) /\
    step fighters rnd armed = Some first /\
    fired first = fired armed ++ [NextRound (length (activations w))] /\
    combatLog (state first) = [attack_line f0 (rnd (randomCalls w))].
Proof.
  intros [_ Hquiet] fighters restarted.
  split; [reflexivity|]. split; [reflexivity|]. split; [reflexivity|].
  split; [reflexivity|].
  split; [repeat constructor|].
  destruct w as [st acts ts nh ck rc fd]. simpl in Hquiet. subst ts.
  eexists. eexists.
  split.
  { subst restarted. erewrite step_single_timer by reflexivity. reflexivity. }
  simpl.
  split; [reflexivity|]. split; [reflexivity|].
  split; [apply list_lookup_middle; reflexivity|].
  split.
  { erewrite step_single_timer by reflexivity. reflexivity. }
  simpl. unfold next_round. simpl.
  rewrite list_lookup_middle by reflexivity. simpl.
  split; reflexivity.
Qed.

Lemma restartCombat_resets_before_new_log_line_witness :
  let fighters := [pikachu; charizard] in
  let finished := run fighters sample_draws run_length (mounted fighters) in
  Finished finished /\
  length (combatLog (state finished)) = 6%nat /\
  state (restartCombat fighters finished) = initial_state fighters /\
  exists armed first,
    step fighters sample_draws (restartCombat fighters finished) = Some armed /\
    combatLog (state armed) = [] /\
    step fighters sample_draws armed = Some first /\
    combatLog (state first) = [ "Pikachu uses Quick Attack!" ].
Proof.
  cbv zeta.
  assert (Hfin : Finished (run [pikachu; charizard] sample_draws run_length
                             (mounted [pikachu; charizard])))
    by (split; vm_compute; reflexivity).
  split; [exact Hfin|].
  split; [vm_compute; reflexivity|].
  destruct (restartCombat_resets_before_new_log_line pikachu charizard sample_draws _ Hfin)
    as (Hstate & _ & _ & _ & _ & armed & first & Harmed & _ & Hst & _ & Hfirst & _ & Hlog).
  split; [exact Hstate|].
  exists armed, first.
  split; [exact Harmed|].
  split; [rewrite Hst; reflexivity|].
  split; [exact Hfirst|].
  rewrite Hlog. vm_compute. reflexivity.
Defined.

(** *** Facts about move selection *)

Lemma random_index_in_bounds (k n : Z) :
  is_draw k -> 0 < n -> 0 <= k * n / 2 ^ 53 < n.
Proof.
  unfold is_draw. intros Hk Hn. split.
  - apply Z.div_pos; nia.
  - apply Z.div_lt_upper_bound; nia.
Qed.

Lemma at_index_in_range {A} (l : list A) (i : Z) :
  0 <= i < Z.of_nat (length l) -> exists x, at_index l i = Some x /\ x ∈ l.
Proof.
  intros Hi. unfold at_index.
  destruct (i <? 0) eqn:Hneg; [apply Z.ltb_lt in Hneg; lia|].
  destruct (lookup_lt_is_Some_2 l (Z.to_nat i)) as [x Hx]; [lia|].
  exists x. split; [exact Hx|]. eapply list_elem_of_lookup_2. exact Hx.
Qed.

(** Selection from a non-empty table of the literal stays inside it. *)
Lemma getRandomMove_own_table (type : string) (table : list string) (k : Z) :
  attackMoves !! type = Some table -> table <> [] -> is_draw k ->
  exists i move,
    random_index k (Some (Z.of_nat (length table))) = Some i /\
    0 <= i < Z.of_nat (length table) /\
    getRandomMove type k = Some move /\ move ∈ table.
Proof.
  intros Htable Hne Hk.
  assert (Hlen : 0 < Z.of_nat (length table)) by (destruct table; [congruence|simpl; lia]).
  pose proof (random_index_in_bounds k _ Hk Hlen) as Hi.
  destruct (at_index_in_range table _ Hi) as [move [Hmove Hin]].
  exists (k * Z.of_nat (length table) / 2 ^ 53), move.
  split; [reflexivity|]. split; [exact Hi|]. split; [|exact Hin].
  unfold getRandomMove, get_attackMoves. rewrite Htable. exact Hmove.
Qed.

Lemma attackMoves_fire : attackMoves !! "fire" = Some fire_moves.
Proof. vm_compute. reflexivity. Qed.

Lemma attackMoves_default : attackMoves !! "default" = Some default_moves.
Proof. vm_compute. reflexivity. Qed.

(** For the type "fire" every draw selects one of the four fire moves. *)
Lemma getRandomMove_fire (k : Z) :
  is_draw k -> exists move, getRandomMove "fire" k = Some move /\ move ∈ fire_moves.
Proof.
  intros Hk.
  destruct (getRandomMove_own_table "fire" fire_moves k attackMoves_fire) as (i & move & _ & _ & H);
    [discriminate|exact Hk|].
  exists move. exact H.
Qed.

(** A type that names no property of [attackMoves], neither an own one nor
    an inherited one, selects from the default table. *)
Lemma getRandomMove_fallback (type : string) (k : Z) :
  attackMoves !! type = None -> Object_prototype !! type = None -> is_draw k ->
  exists move, getRandomMove type k = Some move /\ move ∈ default_moves.
Proof.
  intros Hown Hproto Hk.
  destruct (getRandomMove_own_table "default" default_moves k attackMoves_default)
    as (i & move & _ & _ & Hsel & Hin); [discriminate|exact Hk|].
  exists move. split; [|exact Hin].
  assert (Hget : get_attackMoves type = Undefined)
    by (unfold get_attackMoves; rewrite Hown, Hproto; reflexivity).
  unfold getRandomMove in *. rewrite Hget. exact Hsel.
Qed.

(** A type that names an inherited property finds that property, which is
    truthy, so the default table is not consulted; the property is no
    array, and the selection is [undefined]. *)
Lemma getRandomMove_inherited (type : string) (v : jsval) (k : Z) :
  attackMoves !! type = None -> Object_prototype !! type = Some v ->
  getRandomMove type k = None.
Proof.
  intros Hown Hproto.
  assert (Hget : get_attackMoves type = v)
    by (unfold get_attackMoves; rewrite Hown, Hproto; reflexivity).
  unfold getRandomMove. rewrite Hget. clear Hget Hown.
  apply elem_of_list_to_map_2 in Hproto.
  repeat (apply elem_of_cons in Hproto as [Hproto | Hproto];
          [injection Hproto as _ ->; reflexivity|]).
  inversion Hproto.
Qed.

(** C5 at the input where the code departs from it.  "constructor" is not
    a key of the lookup table, yet for a fighter of that type no draw
    selects a move of the default table: the selection is [undefined], and
    the round logs "... uses undefined!". *)
Theorem getRandomMove_constructor_undefined :
  attackMoves !! "constructor" = None /\
  (forall k, getRandomMove "constructor" k = None) /\
  (forall k, attack_line (mkFighter 1 "missingno" 136 "constructor" "m.png") k
             = "Missingno uses undefined!") /\
  (forall other rnd,
     combatLog (state (run [mkFighter 1 "missingno" 136 "constructor" "m.png"; other] rnd 2
                         (mounted [mkFighter 1 "missingno" 136 "constructor" "m.png"; other])))
     = ["Missingno uses undefined!"]).
Proof.
  assert (Hown : attackMoves !! "constructor" = None) by (vm_compute; reflexivity).
  assert (Hsel : forall k, getRandomMove "constructor" k = None).
  { intros k. apply (getRandomMove_inherited _ (FunctionOf 1)); [exact Hown|].
    vm_compute. reflexivity. }
  split; [exact Hown|]. split; [exact Hsel|].
  assert (Hline : forall k, attack_line (mkFighter 1 "missingno" 136 "constructor" "m.png") k
                            = "Missingno uses undefined!").
  { intros k. unfold attack_line. simpl type. rewrite Hsel. vm_compute. reflexivity. }
  split; [exact Hline|].
  intros other rnd. rewrite <- (Hline (rnd 0%nat)). eval_refl.
Qed.


(** ** More of the component *)

(** *** Capitalising a name *)

(** The strings on which [upper_ascii] is the method of the language:
    every character is ASCII. *)
Fixpoint ascii_only (s : string) : bool :=
  match s with
  | EmptyString => true
  | String c r => (nat_of_ascii c <? 128)%nat && ascii_only r
  end.

Lemma upper_ascii_idempotent (c : ascii) : upper_ascii (upper_ascii c) = upper_ascii c.
Proof.
  destruct c as [[] [] [] [] [] [] [] []]; reflexivity.
Qed.

Lemma upper_ascii_stays_ascii (c : ascii) :
  (nat_of_ascii c <? 128)%nat = true -> (nat_of_ascii (upper_ascii c) <? 128)%nat = true.
Proof.
  destruct c as [[] [] [] [] [] [] [] []]; intros H; try reflexivity; exact H.
Qed.

(** Capitalising touches the first character only: the rest of the
    string and the length are kept, the empty string stays empty, the
    result is ASCII again, and capitalising twice is capitalising once. *)
Theorem capitalizeFirst_first_character_only (s : string) :
  ascii_only s = true ->
  ascii_only (capitalizeFirst s) = true /\
  String.length (capitalizeFirst s) = String.length s /\
  slice1 (capitalizeFirst s) = slice1 s /\
  charAt0 (capitalizeFirst s) = toUpperCase (charAt0 s) /\
  (s = "" <-> capitalizeFirst s = "") /\
  capitalizeFirst (capitalizeFirst s) = capitalizeFirst s.
Proof.
  destruct s as [|c r]; intros Hs.
  - repeat split; reflexivity.
  - cbn in Hs. apply andb_prop in Hs as [Hc Hr]. unfold capitalizeFirst.
    cbn [charAt0 slice1 toUpperCase].
    change (String (upper_ascii c) "" +:+ r) with (String (upper_ascii c) r).
    cbn [charAt0 slice1 toUpperCase ascii_only String.length].
    change (String (upper_ascii (upper_ascii c)) "" +:+ r)
      with (String (upper_ascii (upper_ascii c)) r).
    split; [rewrite (upper_ascii_stays_ascii c Hc), Hr; reflexivity|].
    split; [reflexivity|]. split; [reflexivity|]. split; [reflexivity|].
    split; [split; discriminate|].
    rewrite upper_ascii_idempotent. reflexivity.
Qed.

Lemma capitalizeFirst_first_character_only_witness :
  ascii_only "pikachu" = true /\
  capitalizeFirst "pikachu" = "Pikachu" /\
  capitalizeFirst (capitalizeFirst "pikachu") = capitalizeFirst "pikachu".
Proof.
  split; [reflexivity|]. split; [reflexivity|].
  apply (capitalizeFirst_first_character_only "pikachu" eq_refl).
Defined.

(** *** Further facts about move selection *)

Lemma attackMoves_tables (type : string) (table : list string) :
  attackMoves !! type = Some table ->
  length table = 4%nat /\ Object_prototype !! type = None.
Proof.
  intros Hown. apply elem_of_list_to_map_2 in Hown.
  repeat (apply elem_of_cons in Hown as [Hown | Hown];
          [injection Hown as -> ->; split; [reflexivity|vm_compute; reflexivity]|]).
  inversion Hown.
Qed.

Lemma quarter_of_draws (k : Z) : k * 4 / 2 ^ 53 = k / 2 ^ 51.
Proof.
  change (2 ^ 53) with (2 ^ 51 * 4). apply Z.div_mul_cancel_r; lia.
Qed.

(** For a type that has a table of its own in the literal, the draw picks
    the entry at a quarter of the draw's range: the table has four moves,
    the index is [floor (k / 2^51)], and the move returned is that entry of
    the type's own table, never one of another table. *)
Theorem getRandomMove_known_type (type : string) (table : list string) (k : Z) :
  attackMoves !! type = Some table ->
  is_draw k ->
  length table = 4%nat /\
  0 <= k / 2 ^ 51 < 4 /\
  getRandomMove type k = table !! Z.to_nat (k / 2 ^ 51) /\
  exists move, getRandomMove type k = Some move /\ move ∈ table.
Proof.
  intros Hown Hk.
  destruct (attackMoves_tables type table Hown) as [Hlen _].
  assert (Hi : 0 <= k / 2 ^ 51 < 4).
  { unfold is_draw in Hk. split; [apply Z.div_pos; lia|].
    apply Z.div_lt_upper_bound; lia. }
  assert (Hsel : getRandomMove type k = table !! Z.to_nat (k / 2 ^ 51)).
  { unfold getRandomMove, get_attackMoves. rewrite Hown.
    cbn [or_else length_of random_index element]. rewrite Hlen.
    change (Z.of_nat 4) with 4. rewrite quarter_of_draws.
    unfold at_index. destruct (k / 2 ^ 51 <? 0) eqn:Hneg; [|reflexivity].
    apply Z.ltb_lt in Hneg. lia. }
  split; [exact Hlen|]. split; [exact Hi|]. split; [exact Hsel|].
  destruct (lookup_lt_is_Some_2 table (Z.to_nat (k / 2 ^ 51))) as [move Hmove]; [lia|].
  exists move. rewrite Hsel. split; [exact Hmove|].
  eapply list_elem_of_lookup_2. exact Hmove.
Qed.

Lemma getRandomMove_known_type_witness :
  attackMoves !! "water" = Some ["Water Gun"; "Hydro Pump"; "Bubble Beam"; "Surf"] /\
  is_draw (2 ^ 52 + 5) /\
  getRandomMove "water" (2 ^ 52 + 5) = Some "Bubble Beam".
Proof.
  assert (Hown : attackMoves !! "water"
                 = Some ["Water Gun"; "Hydro Pump"; "Bubble Beam"; "Surf"])
    by (vm_compute; reflexivity).
  assert (Hk : is_draw (2 ^ 52 + 5)) by (unfold is_draw; lia).
  split; [exact Hown|]. split; [exact Hk|].
  destruct (getRandomMove_known_type _ _ _ Hown Hk) as (_ & _ & Hsel & _).
  rewrite Hsel. vm_compute. reflexivity.
Defined.

(** The names a property read on an object literal finds in its prototype. *)
Definition inherited_names : list string :=
  [ "constructor"; "hasOwnProperty"; "isPrototypeOf"; "propertyIsEnumerable";
    "toLocaleString"; "toString"; "valueOf"; "__defineGetter__";
    "__defineSetter__"; "__lookupGetter__"; "__lookupSetter__"; "__proto__" ].

Lemma Object_prototype_names (type : string) :
  is_Some (Object_prototype !! type) <-> type ∈ inherited_names.
Proof.
  split.
  - intros [v Hv]. apply elem_of_list_to_map_2 in Hv.
    apply (list_elem_of_fmap_2 fst) in Hv. exact Hv.
  - intros Hin. unfold inherited_names in Hin.
    repeat (apply elem_of_cons in Hin as [-> | Hin]; [vm_compute; eauto|]).
    inversion Hin.
Qed.

(** [getRandomMove] returns [undefined] exactly for the type strings that
    name a property inherited from [Object.prototype]; for every other
    string, in the literal or not, it returns a move of the type's own
    table or of the default table. *)
Theorem getRandomMove_undefined_iff (type : string) (k : Z) :
  is_draw k ->
  (getRandomMove type k = None <-> type ∈ inherited_names) /\
  (type ∉ inherited_names ->
     exists move,
       getRandomMove type k = Some move /\
       move ∈ default (["Tackle"; "Scratch"; "Quick Attack"; "Body Slam"])
                (attackMoves !! type)).
Proof.
  intros Hk.
  destruct (attackMoves !! type) as [table|] eqn:Hown.
  - destruct (attackMoves_tables type table Hown) as [Hlen Hproto].
    assert (Hne : table <> []) by (intros ->; discriminate Hlen).
    destruct (getRandomMove_own_table type table k Hown Hne Hk)
      as (i & move & _ & _ & Hsel & Hin).
    assert (Hnot : type ∉ inherited_names).
    { intros H. apply Object_prototype_names in H. rewrite Hproto in H.
      destruct H as [? H]. discriminate H. }
    split.
    + split; [intros H; rewrite Hsel in H; discriminate|intros H; contradiction].
    + intros _. exists move. split; [exact Hsel|exact Hin].
  - destruct (Object_prototype !! type) as [v|] eqn:Hproto.
    + assert (Hin : type ∈ inherited_names)
        by (apply Object_prototype_names; rewrite Hproto; eauto).
      split.
      * split; [intros _; exact Hin|intros _].
        exact (getRandomMove_inherited type v k Hown Hproto).
      * intros H. contradiction.
    + assert (Hnot : type ∉ inherited_names).
      { intros H. apply Object_prototype_names in H. rewrite Hproto in H.
        destruct H as [? H]. discriminate H. }
      destruct (getRandomMove_fallback type k Hown Hproto Hk) as (move & Hsel & Hin).
      split.
      * split; [intros H; rewrite Hsel in H; discriminate|intros H; contradiction].
      * intros _. exists move. split; [exact Hsel|exact Hin].
Qed.

Lemma getRandomMove_undefined_iff_witness :
  is_draw (3 * 2 ^ 51) /\
  getRandomMove "toString" (3 * 2 ^ 51) = None /\
  ("ghost" ∉ inherited_names) /\
  exists move, getRandomMove "ghost" (3 * 2 ^ 51) = Some move /\
               move ∈ ["Tackle"; "Scratch"; "Quick Attack"; "Body Slam"].
Proof.
  assert (Hk : is_draw (3 * 2 ^ 51)) by (unfold is_draw; lia).
  assert (Hghost : "ghost" ∉ inherited_names).
  { intros H. unfold inherited_names in H.
    repeat (apply elem_of_cons in H as [H | H]; [discriminate H|]).
    inversion H. }
  split; [exact Hk|]. split.
  - apply (getRandomMove_undefined_iff "toString" _ Hk).
    unfold inherited_names. do 5 apply list_elem_of_further. apply list_elem_of_here.
  - split; [exact Hghost|].
    destruct (getRandomMove_undefined_iff "ghost" _ Hk) as [_ H].
    exact (H Hghost).
Defined.

(** *** Further facts about runs *)

Section CanonicalMore.

Variables (f0 f1 : Fighter) (rnd : nat -> Z) (used : bool) (ms : Z).

(** The animation flags that mark the attacker of round [i] as attacking
    and the other participant as hit; participant 0 attacks in the odd
    rounds. *)
Definition flags_in_round (i : nat) : list FighterState :=
  if Nat.odd i
  then [mkFighterState (Some f0) true false; mkFighterState (Some f1) false true]
  else [mkFighterState (Some f0) false true; mkFighterState (Some f1) true false].

Lemma canonical_flags (i : nat) :
  (1 <= i <= 5)%nat ->
  fighterStates (state (canonical [f0; f1] rnd used ms (2 * i)))
  = flags_in_round (if used then S i else if (i =? 1)%nat then i else S i) /\
  fighterStates (state (canonical [f0; f1] rnd used ms (2 * i + 1)))
  = initial_fighterStates [f0; f1].
Proof.
  intros Hi.
  assert (Hcases : i = 1%nat \/ i = 2%nat \/ i = 3%nat \/ i = 4%nat \/ i = 5%nat) by lia.
  destruct Hcases as [-> | [-> | [-> | [-> | ->]]]]; destruct used; conj_refl.
Qed.

Lemma canonical_final_draws : randomCalls (canonical [f0; f1] rnd used ms run_length) = 5%nat.
Proof. destruct used; eval_refl. Qed.

Lemma canonical_not_exposed (n : nat) :
  (n < run_length)%nat -> restart_exposed (canonical [f0; f1] rnd used ms n) = false.
Proof.
  intros Hn. unfold restart_exposed.
  rewrite (canonical_unfinished f0 f1 rnd used ms n Hn). reflexivity.
Qed.

End CanonicalMore.

Section CanonicalTimes.

Variables (f0 f1 : Fighter) (rnd : nat -> Z).

Lemma canonical_no_winner (used : bool) (ms : Z) (n : nat) :
  (n < run_length)%nat -> winner (state (canonical [f0; f1] rnd used ms n)) = None.
Proof.
  unfold run_length. intros Hn.
  destruct used; do 12 (destruct n as [|n]; [eval_refl|]); lia.
Qed.

Lemma canonical_idle_flags (used : bool) (ms : Z) (n : nat) :
  (n <= 1)%nat \/ n = run_length ->
  fighterStates (state (canonical [f0; f1] rnd used ms n)) = initial_fighterStates [f0; f1].
Proof.
  intros [Hn | ->]; [|destruct used; eval_refl].
  destruct used; (destruct n as [|[|n]]; [eval_refl|eval_refl|lia]).
Qed.

Lemma canonical_clock_mount (i : nat) :
  (1 <= i <= 5)%nat ->
  clock (canonical [f0; f1] rnd false 1000 (2 * i)) = 1000 + 2500 * Z.of_nat i /\
  clock (canonical [f0; f1] rnd false 1000 (2 * i + 1)) = 2000 + 2500 * Z.of_nat i.
Proof.
  intros Hi.
  assert (Hcases : i = 1%nat \/ i = 2%nat \/ i = 3%nat \/ i = 4%nat \/ i = 5%nat) by lia.
  destruct Hcases as [-> | [-> | [-> | [-> | ->]]]]; conj_refl.
Qed.

Lemma canonical_clock_restart (i : nat) :
  (1 <= i <= 5)%nat ->
  clock (canonical [f0; f1] rnd true 500 (2 * i)) = 500 + 2500 * Z.of_nat i /\
  clock (canonical [f0; f1] rnd true 500 (2 * i + 1)) = 1500 + 2500 * Z.of_nat i.
Proof.
  intros Hi.
  assert (Hcases : i = 1%nat \/ i = 2%nat \/ i = 3%nat \/ i = 4%nat \/ i = 5%nat) by lia.
  destruct Hcases as [-> | [-> | [-> | [-> | ->]]]]; conj_refl.
Qed.

Lemma canonical_clock_final :
  clock (canonical [f0; f1] rnd false 1000 run_length) = 15000 /\
  clock (canonical [f0; f1] rnd true 500 run_length) = 14500.
Proof. conj_refl. Qed.

End CanonicalTimes.

Lemma run_mounted (fighters : list Fighter) (rnd : nat -> Z) (n : nat) :
  run fighters rnd n (mounted fighters) = canonical fighters rnd false 1000 n.
Proof. reflexivity. Qed.

(** The run a restart begins, as a translate. *)
Lemma run_restarted (fighters : list Fighter) (rnd : nat -> Z) (w : World) (n : nat) :
  Finished w ->
  run fighters rnd n (restartCombat fighters w)
  = shift_world (nextHandle w) (activations w) (clock w) (randomCalls w) (fired w)
      (canonical fighters (later_draws rnd (randomCalls w)) true 500 n).
Proof.
  intros [_ Hquiet]. rewrite (restartCombat_translate fighters w Hquiet).
  apply run_shift.
Qed.

Lemma clock_shift (k : nat) (acts : list Activation) (c : Z) (rc : nat)
  (fd : list Callback) (w : World) :
  clock (shift_world k acts c rc fd w) = c + clock w.
Proof. reflexivity. Qed.

Lemma randomCalls_shift (k : nat) (acts : list Activation) (c : Z) (rc : nat)
  (fd : list Callback) (w : World) :
  randomCalls (shift_world k acts c rc fd w) = (rc + randomCalls w)%nat.
Proof. reflexivity. Qed.

(** Which cards a round animates.  Round [i] logs the attack of its own
    attacker, but the flags on screen after it are those of the attacker
    of round [i + 1]: the updater reads [attacker] when React renders,
    after the attacker has been switched, so the card of the defender
    gets [isAttacking] and the card of the attacker [isHit].  Only the
    first round after the mount, whose updater is computed at once,
    animates its own attacker.  The timer after a round clears all four
    flags, and they are clear before the first round. *)
Theorem animation_flags_every_round (f0 f1 : Fighter) (rnd : nat -> Z) (i : nat) :
  (1 <= i <= 5)%nat ->
  let fighters := [f0; f1] in
  (fighterStates (state (run fighters rnd (2 * i) (mounted fighters)))
     = flags_in_round f0 f1 (if (i =? 1)%nat then i else S i) /\
   fighterStates (state (run fighters rnd (2 * i + 1) (mounted fighters)))
     = initial_fighterStates fighters /\
   fighterStates (state (run fighters rnd 1 (mounted fighters)))
     = initial_fighterStates fighters) /\
  (forall w, Finished w ->
     fighterStates (state (run fighters rnd (2 * i) (restartCombat fighters w)))
       = flags_in_round f0 f1 (S i) /\
     fighterStates (state (run fighters rnd (2 * i + 1) (restartCombat fighters w)))
       = initial_fighterStates fighters /\
     fighterStates (state (run fighters rnd 1 (restartCombat fighters w)))
       = initial_fighterStates fighters).
Proof.
  intros Hi fighters. subst fighters. split.
  - rewrite !run_mounted.
    destruct (canonical_flags f0 f1 rnd false 1000 i Hi) as [Hon Hoff].
    split; [exact Hon|]. split; [exact Hoff|].
    apply canonical_idle_flags. left. lia.
  - intros w Hfinished. rewrite !(run_restarted _ _ _ _ Hfinished), !state_shift.
    destruct (canonical_flags f0 f1 (later_draws rnd (randomCalls w)) true 500 i Hi)
      as [Hon Hoff].
    split; [exact Hon|]. split; [exact Hoff|].
    apply canonical_idle_flags. left. lia.
Qed.

(** When the timers fire.  After the mount round [i] fires at
    [1000 + 2500 i] ms, its flags are cleared 1000 ms later and the winner
    is declared at 15000 ms; after a restart the same happens 500 ms
    earlier, counted from the click. *)
Theorem round_times (f0 f1 : Fighter) (rnd : nat -> Z) (i : nat) :
  (1 <= i <= 5)%nat ->
  let fighters := [f0; f1] in
  (clock (run fighters rnd (2 * i) (mounted fighters)) = 1000 + 2500 * Z.of_nat i /\
   clock (run fighters rnd (2 * i + 1) (mounted fighters)) = 2000 + 2500 * Z.of_nat i /\
   clock (run fighters rnd run_length (mounted fighters)) = 15000) /\
  (forall w, Finished w ->
     clock (run fighters rnd (2 * i) (restartCombat fighters w))
       = clock w + 500 + 2500 * Z.of_nat i /\
     clock (run fighters rnd (2 * i + 1) (restartCombat fighters w))
       = clock w + 1500 + 2500 * Z.of_nat i /\
     clock (run fighters rnd run_length (restartCombat fighters w)) = clock w + 14500).
Proof.
  intros Hi fighters. subst fighters. split.
  - rewrite !run_mounted.
    destruct (canonical_clock_mount f0 f1 rnd i Hi) as [Hround Hreset].
    destruct (canonical_clock_final f0 f1 rnd) as [Hfinal _].
    split; [exact Hround|]. split; [exact Hreset|exact Hfinal].
  - intros w Hfinished. rewrite !(run_restarted _ _ _ _ Hfinished), !clock_shift.
    destruct (canonical_clock_restart f0 f1 (later_draws rnd (randomCalls w)) i Hi)
      as [Hround Hreset].
    destruct (canonical_clock_final f0 f1 (later_draws rnd (randomCalls w))) as [_ Hfinal].
    rewrite Hround, Hreset, Hfinal. lia.
Qed.

(** *** What no timer ever does *)

Section Invariants.

Variable fighters : list Fighter.
Variable rnd : nat -> Z.

(** What a callback can do to the log and to the list of fighter states:
    it appends at most one line, and it keeps the number of fighter
    states. *)
Lemma run_callback_state (cb : Callback) (w : World) :
  (exists added,
     combatLog (state (run_callback fighters rnd cb w)) = combatLog (state w) ++ added /\
     (length added <= 1)%nat) /\
  length (fighterStates (state (run_callback fighters rnd cb w)))
  = length (fighterStates (state w)).
Proof.
  destruct cb as [|env| |]; cbn [run_callback].
  - split; [exists []; rewrite app_nil_r; split; [reflexivity|simpl; lia]|reflexivity].
  - unfold next_round.
    destruct (activations w !! env) as [act|];
      [|split; [exists []; rewrite app_nil_r; split; [reflexivity|simpl; lia]|reflexivity]].
    destruct (at_index fighters (attacker act)) as [f|];
      [|split; [exists []; rewrite app_nil_r; split; [reflexivity|simpl; lia]|reflexivity]].
    destruct (round act >=? maxRounds); cbn.
    all: split; [eexists; split; [reflexivity|simpl; lia]|apply length_imap].
  - split; [exists []; rewrite app_nil_r; split; [reflexivity|simpl; lia]|].
    cbn. apply length_map.
  - unfold declare_winner.
    destruct (at_index fighters 0) as [g0|], (at_index fighters 1) as [g1|]; cbn.
    all: split; [|reflexivity].
    1: eexists; split; [reflexivity|simpl; lia].
    all: exists []; rewrite app_nil_r; split; [reflexivity|simpl; lia].
Qed.

Lemma step_state (w w' : World) :
  step fighters rnd w = Some w' ->
  (exists added,
     combatLog (state w') = combatLog (state w) ++ added /\ (length added <= 1)%nat) /\
  length (fighterStates (state w')) = length (fighterStates (state w)).
Proof.
  unfold step. destruct (soonest (timers w)) as [t|]; [|discriminate].
  intros [= <-].
  match goal with
  | |- context [run_callback _ _ ?cb ?w1] => exact (run_callback_state cb w1)
  end.
Qed.

(** However many timers fire, the log only grows, by at most one line per
    timer, and the number of fighter states stays what it is. *)
Lemma run_state (n : nat) (w : World) :
  (exists added,
     combatLog (state (run fighters rnd n w)) = combatLog (state w) ++ added /\
     (length added <= n)%nat) /\
  length (fighterStates (state (run fighters rnd n w)))
  = length (fighterStates (state w)).
Proof.
  revert w. induction n as [|n IH]; intros w; simpl.
  - split; [exists []; rewrite app_nil_r; split; [reflexivity|simpl; lia]|reflexivity].
  - destruct (step fighters rnd w) as [w'|] eqn:Hstep.
    + destruct (step_state w w' Hstep) as [(a1 & Hlog1 & Hlen1) Hfs1].
      destruct (IH w') as [(a2 & Hlog2 & Hlen2) Hfs2].
      split; [|congruence].
      exists (a1 ++ a2). rewrite Hlog2, Hlog1, <- app_assoc, length_app.
      split; [reflexivity|lia].
    + split; [exists []; rewrite app_nil_r; split; [reflexivity|simpl; lia]|reflexivity].
Qed.

End Invariants.

(** *** The arena on screen *)

Section Arena.

Variable fighters : list Fighter.

(** The class of fighter [i]'s card:
    [`fighter ${fighterStates[i].isAttacking ? 'attacking' : ''}
      ${fighterStates[i].isHit ? 'hit' : ''}
      ${winner && winner.id === fighters[i].id ? 'winner' : ''}`];
    [None] when [fighterStates[i]] is [undefined] and the read throws. *)
Definition card_class (w : World) (i : Z) : option string :=
  match at_index (fighterStates (state w)) i with
  | None => None
  | Some fs =>
      Some ("fighter " +:+ (if isAttacking fs then "attacking" else "") +:+ " "
              +:+ (if isHit fs then "hit" else "") +:+ " "
              +:+ (if winner_class fighters w i then "winner" else ""))
  end.

(** The entries of the log box: the log, and while it is empty the line
    that stands in for it. *)
Definition log_entries (w : World) : list string :=
  combatLog (state w)
  ++ (if (length (combatLog (state w)) =? 0)%nat
      then ["The battle is about to begin..."] else []).

(** The name in the winner announcement, rendered when
    [combatFinished && winner]. *)
Definition announced (w : World) : option string :=
  if combatFinished (state w)
  then (fun cw => capitalizeFirst (name cw)) <$> winner (state w)
  else None.

End Arena.

(** The world in which the [n]-th replay is over: the run after the mount
    for [n = 0], and each time "Battle Again" clicked as soon as the run
    before is over. *)
Fixpoint after_runs (fighters : list Fighter) (rnd : nat -> Z) (n : nat) : World :=
  match n with
  | O => run fighters rnd run_length (mounted fighters)
  | S n' => run fighters rnd run_length (restartCombat fighters (after_runs fighters rnd n'))
  end.

Lemma run_summary (f0 f1 : Fighter) (rnd : nat -> Z) (w0 : World) :
  begins [f0; f1] w0 ->
  let r := randomCalls w0 in
  let final := run [f0; f1] rnd run_length w0 in
  Finished final /\
  rounds_played final = (rounds_played w0 + 5)%nat /\
  randomCalls final = (r + 5)%nat /\
  state final
  = mkState
      ([ attack_line f0 (rnd r); attack_line f1 (rnd (r + 1)%nat);
         attack_line f0 (rnd (r + 2)%nat); attack_line f1 (rnd (r + 3)%nat);
         attack_line f0 (rnd (r + 4)%nat) ] ++ [ winner_line (combatWinner f0 f1) ])
      0 true (Some (combatWinner f0 f1)) (initial_fighterStates [f0; f1]).
Proof.
  intros Hbegins r final. subst r.
  destruct (run_begins [f0; f1] rnd w0 Hbegins) as (used & ms & k & c & Hrun).
  assert (Hstate : state final
                   = state (canonical [f0; f1] (later_draws rnd (randomCalls w0)) used ms run_length)).
  { subst final. rewrite Hrun. apply state_shift. }
  rewrite canonical_final_state in Hstate.
  unfold later_draws in Hstate. rewrite Nat.add_0_r in Hstate.
  split; [split|].
  - unfold restart_exposed. rewrite Hstate. reflexivity.
  - subst final. rewrite Hrun. apply timers_shift_nil. apply canonical_final_timers.
  - split; [|split; [|exact Hstate]]; subst final; rewrite Hrun.
    + rewrite rounds_played_shift, canonical_final_rounds. reflexivity.
    + rewrite randomCalls_shift, canonical_final_draws. reflexivity.
Qed.

(** "Battle Again" can be repeated without end: the [n]-th replay ends
    finished like the first run, has played five more rounds and used
    five more draws, and its log holds its own five attack lines and the
    winner line, nothing of the runs before. *)
Theorem battle_again_any_number_of_times (f0 f1 : Fighter) (rnd : nat -> Z) (n : nat) :
  let w := after_runs [f0; f1] rnd n in
  Finished w /\
  rounds_played w = (5 * (n + 1))%nat /\
  randomCalls w = (5 * (n + 1))%nat /\
  combatLog (state w)
  = [ attack_line f0 (rnd (5 * n)%nat); attack_line f1 (rnd (5 * n + 1)%nat);
      attack_line f0 (rnd (5 * n + 2)%nat); attack_line f1 (rnd (5 * n + 3)%nat);
      attack_line f0 (rnd (5 * n + 4)%nat) ] ++ [ winner_line (combatWinner f0 f1) ].
Proof.
  induction n as [|n IH]; cbv zeta.
  - destruct (run_summary f0 f1 rnd _ (begins_mount [f0; f1])) as (Hfin & Hrounds & Hdraws & Hst).
    cbn [after_runs]. split; [exact Hfin|].
    split; [rewrite Hrounds; reflexivity|]. split; [rewrite Hdraws; reflexivity|].
    rewrite Hst. reflexivity.
  - destruct IH as (Hfin' & Hrounds' & Hdraws' & _).
    destruct (run_summary f0 f1 rnd _ (begins_restart [f0; f1] _ Hfin'))
      as (Hfin & Hrounds & Hdraws & Hst).
    cbn [after_runs]. split; [exact Hfin|].
    change (rounds_played (restartCombat [f0; f1] (after_runs [f0; f1] rnd n)))
      with (rounds_played (after_runs [f0; f1] rnd n)) in Hrounds.
    change (randomCalls (restartCombat [f0; f1] (after_runs [f0; f1] rnd n)))
      with (randomCalls (after_runs [f0; f1] rnd n)) in Hdraws, Hst.
    rewrite Hdraws' in Hdraws, Hst. rewrite Hrounds' in Hrounds.
    split; [rewrite Hrounds; lia|]. split; [rewrite Hdraws; lia|].
    rewrite Hst. fields.
    replace (5 * (n + 1))%nat with (5 * S n)%nat by lia.
    replace (5 * S n + 0)%nat with (5 * S n)%nat by lia. reflexivity.
Qed.

(** Whatever the fighters and the state, timers never remove or change a
    line of the log: the log after [n] timers extends the log after
    [m <= n] timers, by at most one line per timer. *)
Theorem log_only_grows (fighters : list Fighter) (rnd : nat -> Z) (w : World) (m n : nat) :
  (m <= n)%nat ->
  exists added,
    combatLog (state (run fighters rnd n w))
    = combatLog (state (run fighters rnd m w)) ++ added /\
    (length added <= n - m)%nat.
Proof.
  intros Hle.
  destruct (run_state fighters rnd (n - m) (run fighters rnd m w))
    as [(added & Hlog & Hlen) _].
  rewrite <- run_plus in Hlog. replace (m + (n - m))%nat with n in Hlog by lia.
  exists added. split; [exact Hlog|exact Hlen].
Qed.

Lemma log_only_grows_witness :
  (2 <= 7)%nat /\
  exists added,
    combatLog (state (run [pikachu; charizard] sample_draws 7 (mounted [pikachu; charizard])))
    = [ "Pikachu uses Thunder Shock!" ] ++ added /\
    (length added <= 5)%nat.
Proof.
  split; [lia|].
  destruct (log_only_grows [pikachu; charizard] sample_draws
              (mounted [pikachu; charizard]) 2 7) as (added & Hlog & Hlen); [lia|].
  exists added. split; [|exact Hlen].
  rewrite Hlog. f_equal.
Defined.

(** Rendering the two cards never reads a missing fighter state: no
    timer changes the number of fighter states, so both class strings are
    defined after any number of timers. *)
Theorem card_class_always_defined
  (fighters : list Fighter) (rnd : nat -> Z) (w : World) (n : nat) :
  length (fighterStates (state w)) = 2%nat ->
  is_Some (card_class fighters (run fighters rnd n w) 0) /\
  is_Some (card_class fighters (run fighters rnd n w) 1).
Proof.
  intros Hlen.
  destruct (run_state fighters rnd n w) as [_ Hkeep]. rewrite Hlen in Hkeep.
  unfold card_class, at_index.
  destruct (fighterStates (state (run fighters rnd n w))) as [|fs0 [|fs1 [|fs2 l]]];
    try discriminate Hkeep.
  split; simpl; eauto.
Qed.

Lemma card_class_always_defined_witness :
  length (fighterStates (state (mounted [pikachu; charizard]))) = 2%nat /\
  is_Some (card_class [pikachu; charizard]
             (run [pikachu; charizard] sample_draws 4 (mounted [pikachu; charizard])) 0) /\
  is_Some (card_class [pikachu; charizard]
             (run [pikachu; charizard] sample_draws 4 (mounted [pikachu; charizard])) 1).
Proof.
  split; [reflexivity|].
  apply (card_class_always_defined [pikachu; charizard] sample_draws
           (mounted [pikachu; charizard]) 4 eq_refl).
Defined.

(** What the screen shows of the verdict.  Before the run is over there
    is no announcement, no "Battle Again" and no card of class winner.
    When it is over the announcement names the capitalised winner; with
    different ids exactly the winner's card has the class winner, and with
    equal ids both cards have it. *)
Theorem verdict_on_screen (f0 f1 : Fighter) (rnd : nat -> Z) (w0 : World) :
  begins [f0; f1] w0 ->
  let fighters := [f0; f1] in
  let final := run fighters rnd run_length w0 in
  (forall n, (n < run_length)%nat ->
     announced (run fighters rnd n w0) = None /\
     restart_exposed (run fighters rnd n w0) = false /\
     winner_class fighters (run fighters rnd n w0) 0 = false /\
     winner_class fighters (run fighters rnd n w0) 1 = false) /\
  announced final = Some (capitalizeFirst (name (combatWinner f0 f1))) /\
  restart_exposed final = true /\
  (id f0 <> id f1 ->
     card_class fighters final 0
       = Some (if attack f0 >? attack f1 then "fighter   winner" else "fighter   ") /\
     card_class fighters final 1
       = Some (if attack f0 >? attack f1 then "fighter   " else "fighter   winner")) /\
  (id f0 = id f1 ->
     card_class fighters final 0 = Some "fighter   winner" /\
     card_class fighters final 1 = Some "fighter   winner").
Proof.
  intros Hbegins fighters final. subst fighters.
  destruct (run_begins [f0; f1] rnd w0 Hbegins) as (used & ms & k & c & Hrun).
  destruct (run_summary f0 f1 rnd w0 Hbegins) as ([Hexposed _] & _ & _ & Hstate).
  fold final in Hexposed, Hstate.
  split.
  { intros n Hn. unfold announced, restart_exposed, winner_class.
    rewrite Hrun, !state_shift.
    rewrite (canonical_unfinished f0 f1 _ used ms n Hn), (canonical_no_winner f0 f1 _ used ms n Hn).
    repeat split. }
  split; [unfold announced; rewrite Hstate; reflexivity|].
  split; [exact Hexposed|].
  unfold card_class, winner_class. rewrite Hstate. unfold combatWinner.
  split.
  - intros Hne.
    assert (H01 : (id f0 =? id f1) = false) by (apply Z.eqb_neq; exact Hne).
    assert (H10 : (id f1 =? id f0) = false) by (apply Z.eqb_neq; congruence).
    destruct (attack f0 >? attack f1); cbv -[Z.eqb id];
      rewrite ?Z.eqb_refl, ?H01, ?H10; split; reflexivity.
  - intros Heq.
    destruct (attack f0 >? attack f1); cbv -[Z.eqb id];
      rewrite ?Heq, ?Z.eqb_refl; split; reflexivity.
Qed.

Lemma canonical_first_line (f0 f1 : Fighter) (rnd : nat -> Z) (used : bool) (ms : Z) :
  combatLog (state (canonical [f0; f1] rnd used ms 0)) = [] /\
  combatLog (state (canonical [f0; f1] rnd used ms 1)) = [] /\
  combatLog (state (canonical [f0; f1] rnd used ms 2)) = [attack_line f0 (rnd 0%nat)].
Proof. destruct used; conj_refl. Qed.

(** The log box shows the placeholder line until the first round has
    fired, in every run, and from then on the log itself, which starts
    with the first participant's attack line of this run. *)
Theorem placeholder_until_first_round
  (f0 f1 : Fighter) (rnd : nat -> Z) (w0 : World) (n : nat) :
  begins [f0; f1] w0 ->
  let shown := log_entries (run [f0; f1] rnd n w0) in
  ((n <= 1)%nat -> shown = ["The battle is about to begin..."]) /\
  ((2 <= n)%nat ->
     shown = combatLog (state (run [f0; f1] rnd n w0)) /\
     exists more, shown = attack_line f0 (rnd (randomCalls w0)) :: more).
Proof.
  intros Hbegins shown. subst shown.
  destruct (run_begins [f0; f1] rnd w0 Hbegins) as (used & ms & k & c & Hrun).
  destruct (canonical_first_line f0 f1 (later_draws rnd (randomCalls w0)) used ms)
    as (H0 & H1 & H2).
  split.
  - intros Hn. unfold log_entries. rewrite Hrun, state_shift.
    destruct n as [|[|n]]; [rewrite H0|rewrite H1|lia]; reflexivity.
  - intros Hn.
    destruct (run_state [f0; f1] rnd (n - 2) (run [f0; f1] rnd 2 w0))
      as [(added & Hlog & _) _].
    rewrite <- run_plus in Hlog. replace (2 + (n - 2))%nat with n in Hlog by lia.
    rewrite (Hrun 2%nat), state_shift, H2 in Hlog.
    unfold later_draws in Hlog. rewrite Nat.add_0_r in Hlog.
    unfold log_entries. rewrite Hlog. cbn [app length Nat.eqb].
    rewrite app_nil_r. split; [reflexivity|]. exists added. reflexivity.
Qed.

Lemma placeholder_until_first_round_witness :
  let fighters := [pikachu; charizard] in
  let finished := run fighters sample_draws run_length (mounted fighters) in
  begins fighters (restartCombat fighters finished) /\
  (1 <= 1)%nat /\
  log_entries (run fighters sample_draws 1 (restartCombat fighters finished))
  = ["The battle is about to begin..."] /\
  (2 <= 3)%nat /\
  log_entries (run fighters sample_draws 3 (restartCombat fighters finished))
  = ["Pikachu uses Quick Attack!"].
Proof.
  cbv zeta.
  assert (Hfin : Finished (run [pikachu; charizard] sample_draws run_length
                             (mounted [pikachu; charizard])))
    by (split; vm_compute; reflexivity).
  pose proof (begins_restart [pikachu; charizard] _ Hfin) as Hbegins.
  split; [exact Hbegins|]. split; [lia|]. split.
  - apply (placeholder_until_first_round pikachu charizard sample_draws _ 1 Hbegins). lia.
  - split; [lia|].
    destruct (placeholder_until_first_round pikachu charizard sample_draws _ 3 Hbegins)
      as [_ Hlate].
    destruct Hlate as [Hshown _]; [lia|].
    rewrite Hshown. vm_compute. reflexivity.
Defined.

Lemma animation_flags_every_round_witness :
  let fighters := [pikachu; charizard] in
  let finished := run fighters sample_draws run_length (mounted fighters) in
  (1 <= 1 <= 5)%nat /\ (1 <= 2 <= 5)%nat /\
  fighterStates (state (run fighters sample_draws 2 (mounted fighters)))
  = [ mkFighterState (Some pikachu) true false;
      mkFighterState (Some charizard) false true ] /\
  combatLog (state (run fighters sample_draws 4 (mounted fighters)))
  = [ "Pikachu uses Thunder Shock!"; "Charizard uses Fire Punch!" ] /\
  fighterStates (state (run fighters sample_draws 4 (mounted fighters)))
  = [ mkFighterState (Some pikachu) true false;
      mkFighterState (Some charizard) false true ] /\
  fighterStates (state (run fighters sample_draws 5 (mounted fighters)))
  = [ mkFighterState (Some pikachu) false false;
      mkFighterState (Some charizard) false false ] /\
  Finished finished /\
  fighterStates (state (run fighters sample_draws 2 (restartCombat fighters finished)))
  = [ mkFighterState (Some pikachu) false true;
      mkFighterState (Some charizard) true false ].
Proof.
  cbv zeta.
  assert (Hfin : Finished (run [pikachu; charizard] sample_draws run_length
                             (mounted [pikachu; charizard])))
    by (split; vm_compute; reflexivity).
  destruct (animation_flags_every_round pikachu charizard sample_draws 1)
    as [(Hfirst & _ & _) Hre]; [lia|].
  destruct (animation_flags_every_round pikachu charizard sample_draws 2)
    as [(Hon & Hoff & _) _]; [lia|].
  destruct (Hre _ Hfin) as (Hagain & _ & _).
  split; [lia|]. split; [lia|]. split; [exact Hfirst|].
  split; [vm_compute; reflexivity|].
  split; [exact Hon|]. split; [exact Hoff|]. split; [exact Hfin|exact Hagain].
Defined.

Lemma round_times_witness :
  let fighters := [pikachu; charizard] in
  let finished := run fighters sample_draws run_length (mounted fighters) in
  (1 <= 5 <= 5)%nat /\
  clock (run fighters sample_draws 10 (mounted fighters)) = 13500 /\
  clock finished = 15000 /\
  Finished finished /\
  clock (run fighters sample_draws run_length (restartCombat fighters finished)) = 29500.
Proof.
  cbv zeta.
  assert (Hfin : Finished (run [pikachu; charizard] sample_draws run_length
                             (mounted [pikachu; charizard])))
    by (split; vm_compute; reflexivity).
  destruct (round_times pikachu charizard sample_draws 5) as [(H10 & _ & H12) Hre]; [lia|].
  destruct (Hre _ Hfin) as (_ & _ & Hagain).
  split; [lia|]. split; [exact H10|]. split; [exact H12|]. split; [exact Hfin|].
  rewrite Hagain, H12. reflexivity.
Defined.

Lemma verdict_on_screen_witness :
  let fighters := [butterfree; pidgey] in
  let final := run fighters sample_draws run_length (mounted fighters) in
  begins fighters (mounted fighters) /\
  id butterfree <> id pidgey /\
  card_class fighters final 0 = Some "fighter   " /\
  card_class fighters final 1 = Some "fighter   winner" /\
  announced final = Some "Pidgey".
Proof.
  cbv zeta.
  destruct (verdict_on_screen butterfree pidgey sample_draws _ (begins_mount _))
    as (_ & Hname & _ & Hcards & _).
  assert (Hne : id butterfree <> id pidgey) by discriminate.
  destruct (Hcards Hne) as [H0 H1].
  split; [apply begins_mount|]. split; [exact Hne|].
  split; [rewrite H0; reflexivity|]. split; [rewrite H1; reflexivity|].
  rewrite Hname. vm_compute. reflexivity.
Defined.

(** *** Leaving the arena *)

(** The cleanup of the mount effect, run when the component is removed:
    [return () => clearTimeout(startCombat)], with the handle that the
    [setTimeout] of the mount effect returned. *)
Definition cleanup (fighters : list Fighter) (w : World) : World :=
  clearInterval (nextHandle (blank fighters)) w.

Lemma cleanup_canonical (f0 f1 : Fighter) (rnd : nat -> Z) (n : nat) :
  (1 <= n < run_length)%nat ->
  cleanup [f0; f1] (canonical [f0; f1] rnd false 1000 n) = canonical [f0; f1] rnd false 1000 n /\
  timers (canonical [f0; f1] rnd false 1000 n) <> [].
Proof.
  unfold run_length. intros Hn.
  destruct n as [|n]; [lia|].
  do 11 (destruct n as [|n];
         [split; [eval_refl|];
          cbv -[getRandomMove capitalizeFirst to_text String.append combatWinner];
          discriminate|]).
  lia.
Qed.

(** Leaving the arena cancels the combat only while it has not started.
    Before the first second is over the cleanup leaves no timer, and
    nothing fires afterwards.  Once [simulateCombat] has started the
    cleanup removes nothing: the interval and the timeouts of the run stay
    armed until the run is over. *)
Theorem cleanup_cancels_only_pending_start (f0 f1 : Fighter) (rnd : nat -> Z) :
  let fighters := [f0; f1] in
  timers (cleanup fighters (mounted fighters)) = [] /\
  (forall n,
     run fighters rnd n (cleanup fighters (mounted fighters))
     = cleanup fighters (mounted fighters)) /\
  (forall n, (1 <= n < run_length)%nat ->
     cleanup fighters (run fighters rnd n (mounted fighters))
     = run fighters rnd n (mounted fighters) /\
     timers (run fighters rnd n (mounted fighters)) <> []).
Proof.
  cbv zeta. split; [reflexivity|]. split.
  - intros n. apply run_idle. reflexivity.
  - intros n Hn. rewrite !run_mounted. exact (cleanup_canonical f0 f1 rnd n Hn).
Qed.

End Combat.

(** ** pages/CharacterList: the selection of fighters *)

Module Selection.

(** Fighter records are objects: the state array [selectedCharacters] holds
    references to them, and [includes] compares references while the
    filter compares the [id] field.  A reference is an address, and
    [heap] gives the record stored at it (records are never mutated). *)
Definition ref := nat.

Section Handler.

Variable heap : ref -> Combat.Fighter.

(** [selectedCharacters.includes(character)] *)
Definition includes (selectedCharacters : list ref) (character : ref) : bool :=
  existsb (Nat.eqb character) selectedCharacters.

(** [const handleSelect = (character) => {
       if (selectedCharacters.includes(character)) {
         setSelectedCharacters(selectedCharacters.filter(c => c.id !== character.id));
       } else if (selectedCharacters.length < 2) {
         setSelectedCharacters([...selectedCharacters, character]);
       } }]
    as the new value of the state. *)
Definition handleSelect (selectedCharacters : list ref) (character : ref) : list ref :=
  if includes selectedCharacters character then
    List.filter
      (fun c => negb (Combat.id (heap c) =? Combat.id (heap character)))
      selectedCharacters
  else if (length selectedCharacters <? 2)%nat then
    selectedCharacters ++ [character]
  else
    selectedCharacters.

(** The selection after a sequence of clicks, starting from [useState([])]. *)
Definition after_clicks (clicks : list ref) : list ref :=
  fold_left handleSelect clicks [].

(** The "Start Combat" button is rendered when exactly two are selected;
    it hands the selected records to the combat page. *)
Definition can_start (selectedCharacters : list ref) : bool :=
  (length selectedCharacters =? 2)%nat.

Definition startCombat (selectedCharacters : list ref) : list Combat.Fighter :=
  map heap selectedCharacters.

End Handler.

(** A page of three records, stored at addresses 0, 1 and 2. *)
Definition sample_heap (r : ref) : Combat.Fighter :=
  match r with
  | O => Combat.pikachu
  | S O => Combat.charizard
  | _ => Combat.pidgey
  end.

(** *** The selection never exceeds two *)

Section HandlerFacts.

Variable heap : ref -> Combat.Fighter.

(** With exactly two records selected, what "Start Combat" hands over
    mounts the arena. *)
Lemma startCombat_mounts_arena (sel : list ref) :
  can_start sel = true ->
  Combat.CombatResult (startCombat heap sel)
  = Combat.Arena (Combat.mounted (startCombat heap sel)).
Proof.
  unfold can_start, startCombat, Combat.CombatResult. intros Hlen.
  rewrite length_map, Hlen. reflexivity.
Qed.

Lemma includes_true_iff (sel : list ref) (c : ref) : includes sel c = true <-> c ∈ sel.
Proof.
  unfold includes. rewrite existsb_exists. split.
  - intros [x [Hin Heq]]. apply Nat.eqb_eq in Heq. subst x.
    now apply list_elem_of_In.
  - intros Hin. exists c. split; [now apply list_elem_of_In|apply Nat.eqb_refl].
Qed.

Lemma includes_false_iff (sel : list ref) (c : ref) : includes sel c = false <-> c ∉ sel.
Proof.
  rewrite <- includes_true_iff. destruct (includes sel c); split; congruence.
Qed.

Lemma filter_length_le {A} (p : A -> bool) (l : list A) :
  (length (List.filter p l) <= length l)%nat.
Proof.
  induction l as [|x l IH]; simpl; [lia|]. destruct (p x); simpl; lia.
Qed.

Lemma handleSelect_bound (sel : list ref) (c : ref) :
  (length sel <= 2)%nat -> (length (handleSelect heap sel c) <= 2)%nat.
Proof.
  intros Hlen. unfold handleSelect.
  destruct (includes sel c).
  - pose proof (filter_length_le
                  (fun x => negb (Combat.id (heap x) =? Combat.id (heap c))) sel). lia.
  - destruct (length sel <? 2)%nat eqn:Hlt; [|exact Hlen].
    apply Nat.ltb_lt in Hlt. rewrite length_app. simpl. lia.
Qed.

Lemma fold_handleSelect_bound (clicks : list ref) (sel : list ref) :
  (length sel <= 2)%nat -> (length (fold_left (handleSelect heap) clicks sel) <= 2)%nat.
Proof.
  revert sel. induction clicks as [|c clicks IH]; intros sel Hlen; simpl; [exact Hlen|].
  apply IH. now apply handleSelect_bound.
Qed.

(** C8.  After every sequence of clicks the selection holds at most two
    records.  A click on a selected record removes it: what stays are the
    selected records whose id differs from its id.  A click on a record
    that is not selected adds it at the end when fewer than two are
    selected, and changes nothing when two are. *)
Theorem selection_holds_at_most_two (clicks sel : list ref) (c : ref) :
  (length (after_clicks heap clicks) <= 2)%nat /\
  ((c ∈ sel) ->
     (c ∉ handleSelect heap sel c) /\
     (length (handleSelect heap sel c) < length sel)%nat /\
     (forall x, x ∈ handleSelect heap sel c <->
                x ∈ sel /\ Combat.id (heap x) <> Combat.id (heap c))) /\
  ((c ∉ sel) -> (length sel < 2)%nat -> handleSelect heap sel c = sel ++ [c]) /\
  ((c ∉ sel) -> length sel = 2%nat -> handleSelect heap sel c = sel).
Proof.
  split; [apply fold_handleSelect_bound; simpl; lia|].
  split; [|split].
  - intros Hin. unfold handleSelect.
    rewrite (proj2 (includes_true_iff sel c) Hin).
    assert (Hchar : forall x,
              x ∈ List.filter
                    (fun y => negb (Combat.id (heap y) =? Combat.id (heap c))) sel <->
              x ∈ sel /\ Combat.id (heap x) <> Combat.id (heap c)).
    { intros x. rewrite !list_elem_of_In, filter_In, negb_true_iff, Z.eqb_neq.
      reflexivity. }
    split; [|split; [|exact Hchar]].
    + intros Hc. apply Hchar in Hc. destruct Hc as [_ Hne]. now apply Hne.
    + clear Hchar. induction sel as [|x sel IH]; [inversion Hin|].
      simpl. destruct (Z.eqb_spec (Combat.id (heap x)) (Combat.id (heap c))) as [Heq|Hne];
        simpl.
      * pose proof (filter_length_le
                      (fun y => negb (Combat.id (heap y) =? Combat.id (heap c))) sel). lia.
      * apply elem_of_cons in Hin as [->|Hin]; [congruence|].
        specialize (IH Hin). lia.
  - intros Hout Hlen. unfold handleSelect.
    rewrite (proj2 (includes_false_iff sel c) Hout).
    now rewrite (proj2 (Nat.ltb_lt _ _) Hlen).
  - intros Hout Hlen. unfold handleSelect.
    rewrite (proj2 (includes_false_iff sel c) Hout).
    rewrite Hlen. reflexivity.
Qed.

End HandlerFacts.

Lemma selection_holds_at_most_two_witness :
  ((0%nat ∈ [0%nat; 1%nat]) /\ handleSelect sample_heap [0; 1]%nat 0%nat = [1%nat] /\
   (0%nat ∉ handleSelect sample_heap [0; 1]%nat 0%nat)) /\
  ((1%nat ∉ [0%nat]) /\ (length [0%nat] < 2)%nat /\
   handleSelect sample_heap [0%nat] 1%nat = [0; 1]%nat) /\
  ((2%nat ∉ [0; 1]%nat) /\ length [0; 1]%nat = 2%nat /\
   handleSelect sample_heap [0; 1]%nat 2%nat = [0; 1]%nat) /\
  (length (after_clicks sample_heap [0; 1; 2; 1; 2; 0; 1]%nat) <= 2)%nat.
Proof.
  assert (H01 : 0%nat ∈ [0%nat; 1%nat]) by (apply elem_of_cons; now left).
  assert (H1 : 1%nat ∉ [0%nat]) by (intros H; apply list_elem_of_singleton in H; lia).
  assert (H2 : 2%nat ∉ [0; 1]%nat).
  { intros H. apply elem_of_cons in H as [H|H]; [lia|].
    apply list_elem_of_singleton in H. lia. }
  split; [split; [exact H01|split; [reflexivity|]]|].
  { destruct (selection_holds_at_most_two sample_heap [] [0; 1]%nat 0%nat) as (_ & Hdel & _).
    apply Hdel. exact H01. }
  split; [split; [exact H1|split; [simpl; lia|]]|].
  { destruct (selection_holds_at_most_two sample_heap [] [0%nat] 1%nat) as (_ & _ & Hadd & _).
    apply Hadd; [exact H1|simpl; lia]. }
  split; [split; [exact H2|split; [reflexivity|]]|].
  { destruct (selection_holds_at_most_two sample_heap [] [0; 1]%nat 2%nat) as (_ & _ & _ & Hfull).
    apply Hfull; [exact H2|reflexivity]. }
  apply (selection_holds_at_most_two sample_heap [0; 1; 2; 1; 2; 0; 1]%nat [] 0%nat).
Defined.

(** *** More about the selection *)

Section MoreHandlerFacts.

Variable heap : ref -> Combat.Fighter.

Lemma NoDup_filter_bool {A} (p : A -> bool) (l : list A) :
  NoDup l -> NoDup (List.filter p l).
Proof.
  induction 1 as [|x l Hx Hnd IH]; simpl; [constructor|].
  destruct (p x); [|exact IH].
  constructor; [|exact IH].
  rewrite list_elem_of_In, filter_In, <- list_elem_of_In. tauto.
Qed.

Lemma handleSelect_NoDup (sel : list ref) (c : ref) :
  NoDup sel -> NoDup (handleSelect heap sel c).
Proof.
  intros Hnd. unfold handleSelect.
  destruct (includes sel c) eqn:Hinc.
  - now apply NoDup_filter_bool.
  - destruct (length sel <? 2)%nat; [|exact Hnd].
    apply NoDup_app. split; [exact Hnd|]. split; [|apply NoDup_singleton].
    intros x Hx Hc. apply list_elem_of_singleton in Hc. subst x.
    apply includes_false_iff in Hinc. contradiction.
Qed.

(** After every sequence of clicks no record is selected twice. *)
Theorem selection_never_repeats (clicks : list ref) :
  NoDup (after_clicks heap clicks).
Proof.
  unfold after_clicks.
  assert (H : forall sel, NoDup sel -> NoDup (fold_left (handleSelect heap) clicks sel)).
  { induction clicks as [|c l IH]; intros sel Hnd; simpl; [exact Hnd|].
    apply IH. now apply handleSelect_NoDup. }
  apply H. constructor.
Qed.

(** Selecting a record and clicking it again gives the selection back,
    provided no selected record shares its id. *)
Theorem select_then_unselect (sel : list ref) (c : ref) :
  (c ∉ sel) ->
  (length sel < 2)%nat ->
  (forall x, x ∈ sel -> Combat.id (heap x) <> Combat.id (heap c)) ->
  handleSelect heap (handleSelect heap sel c) c = sel.
Proof.
  intros Hout Hlen Hids.
  assert (Hadd : handleSelect heap sel c = sel ++ [c]).
  { unfold handleSelect. rewrite (proj2 (includes_false_iff sel c) Hout).
    now rewrite (proj2 (Nat.ltb_lt _ _) Hlen). }
  rewrite Hadd. unfold handleSelect.
  assert (Hin : includes (sel ++ [c]) c = true).
  { apply includes_true_iff. apply elem_of_app. right. apply list_elem_of_here. }
  rewrite Hin, List.filter_app. simpl. rewrite Z.eqb_refl. simpl. rewrite app_nil_r.
  clear Hout Hlen Hadd Hin.
  induction sel as [|x sel IH]; [reflexivity|]. simpl.
  assert (Hx : (Combat.id (heap x) =? Combat.id (heap c)) = false).
  { apply Z.eqb_neq. apply Hids. apply list_elem_of_here. }
  rewrite Hx. simpl. f_equal. apply IH.
  intros y Hy. apply Hids. now apply list_elem_of_further.
Qed.

(** Unselecting one of two selected records and selecting it again puts it
    last: the other record becomes the first participant. *)
Theorem reselect_moves_last (a b : ref) :
  a <> b ->
  Combat.id (heap a) <> Combat.id (heap b) ->
  handleSelect heap (handleSelect heap [a; b] a) a = [b; a] /\
  startCombat heap (handleSelect heap (handleSelect heap [a; b] a) a) = [heap b; heap a].
Proof.
  intros Hab Hids.
  assert (H1 : handleSelect heap [a; b] a = [b]).
  { unfold handleSelect, includes. simpl. rewrite Nat.eqb_refl. simpl.
    rewrite Z.eqb_refl. simpl.
    replace (Combat.id (heap b) =? Combat.id (heap a)) with false
      by (symmetry; apply Z.eqb_neq; congruence).
    reflexivity. }
  rewrite H1.
  assert (H2 : handleSelect heap [b] a = [b; a]).
  { unfold handleSelect, includes. simpl.
    replace (a =? b)%nat with false by (symmetry; apply Nat.eqb_neq; exact Hab).
    reflexivity. }
  rewrite H2. split; reflexivity.
Qed.

End MoreHandlerFacts.

Lemma select_then_unselect_witness :
  (1%nat ∉ [0%nat]) /\ (length [0%nat] < 2)%nat /\
  handleSelect sample_heap (handleSelect sample_heap [0%nat] 1%nat) 1%nat = [0%nat].
Proof.
  assert (H1 : 1%nat ∉ [0%nat]) by (intros H; apply list_elem_of_singleton in H; lia).
  split; [exact H1|]. split; [simpl; lia|].
  apply (select_then_unselect sample_heap [0%nat] 1%nat H1); [simpl; lia|].
  intros x Hx. apply list_elem_of_singleton in Hx. subst x. discriminate.
Defined.

Lemma reselect_moves_last_witness :
  0%nat <> 1%nat /\
  startCombat sample_heap
    (handleSelect sample_heap (handleSelect sample_heap [0; 1]%nat 0%nat) 0%nat)
  = [Combat.charizard; Combat.pikachu].
Proof.
  split; [lia|].
  apply (reselect_moves_last sample_heap 0%nat 1%nat); [lia|discriminate].
Defined.

End Selection.

(** ** services/api: the data fetcher *)

Module Api.

(** A JavaScript value as a response body can hold it.  The numbers the
    fetcher meets (ids, stats) are integers, and it only copies them. *)
#[local] Unset Elimination Schemes.
Inductive value :=
| undefined
| null
| boolean (b : bool)
| number (n : Z)
| str (s : string)
| array (items : list value)
| object (props : list (string * value)).
#[local] Set Elimination Schemes.

(** What can be thrown inside the two functions: the rejection of a
    request by axios (no connection, a status outside 2xx such as 404), and
    the [TypeError] of reading a property of [undefined] or [null] or of
    calling what is not a function.  Both are [Error] objects with a
    [message]. *)
Inductive error :=
| AxiosError (message : string)
| TypeError (message : string).

Definition message_of (e : error) : string :=
  match e with
  | AxiosError m | TypeError m => m
  end.

(** How an evaluation, or an awaited promise, ends. *)
Inductive completion (A : Type) :=
| Normal (a : A)
| Throw (e : error).
Arguments Normal {A} a.
Arguments Throw {A} e.

Definition bind {A B} (c : completion A) (k : A -> completion B) : completion B :=
  match c with
  | Normal a => k a
  | Throw e => Throw e
  end.

Notation "'let*' x ':=' c 'in' k" := (bind c (fun x => k))
  (at level 10, x name, c at level 100, k at level 200).

(** [try { body } catch (error) { handler }] *)
Definition try_catch {A} (body : completion A) (handler : error -> completion A) : completion A :=
  match body with
  | Normal a => Normal a
  | Throw e => handler e
  end.

(** [console.error(...)] prints and returns. *)
Definition console_error (label message : string) : completion unit := Normal tt.

Fixpoint assoc (k : string) (props : list (string * value)) : option value :=
  match props with
  | [] => None
  | (k', v) :: rest => if String.eqb k k' then Some v else assoc k rest
  end.

(** [v.k] for the property names the fetcher reads ([results], [url],
    [id], [name], [stats], [stat], [base_stat], [types], [type], [sprites],
    [front_default]): none of them is a built-in property of an array, a
    string, a number or a boolean, nor of [Object.prototype]. *)
Definition get (v : value) (k : string) : completion value :=
  match v with
  | undefined | null => Throw (TypeError ("Cannot read properties: " +:+ k))
  | object props => Normal (default undefined (assoc k props))
  | _ => Normal undefined
  end.

(** [v[0]] *)
Definition first_of (v : value) : completion value :=
  match v with
  | undefined | null => Throw (TypeError "Cannot read properties: 0")
  | array items => Normal (default undefined (items !! 0%nat))
  | object props => Normal (default undefined (assoc "0" props))
  | str (String c _) => Normal (str (String c EmptyString))
  | _ => Normal undefined
  end.

(** The receiver of [.map(...)] and [.find(...)]: only an array has
    these methods, for every other value the call throws. *)
Definition as_array (v : value) (method : string) : completion (list value) :=
  match v with
  | array items => Normal items
  | _ => Throw (TypeError (method +:+ " is not a function"))
  end.

(** [v === 'attack'] *)
Definition is_attack (v : value) : bool :=
  match v with
  | str s => String.eqb s "attack"
  | _ => false
  end.

(** [items.find(pred)]: the first element for which the callback returns
    true, [undefined] when there is none; a callback that throws ends the
    search. *)
Fixpoint find (pred : value -> completion bool) (items : list value) : completion value :=
  match items with
  | [] => Normal undefined
  | x :: rest =>
      let* b := pred x in
      if (b : bool) then Normal x else find pred rest
  end.

(** The elements mapped in order, up to the first that throws.  For
    [Promise.all] this picks the rejection of the first element in list
    order; which rejection the program observes depends on timing, and
    only the message printed differs. *)
Fixpoint traverse {A B} (f : A -> completion B) (l : list A) : completion (list B) :=
  match l with
  | [] => Normal []
  | x :: rest =>
      let* y := f x in
      let* ys := traverse f rest in
      Normal (y :: ys)
  end.

(** The record both functions build. *)
Record Pokemon := mkPokemon {
  id : value;
  name : value;
  attack : value;
  type : value;
  image : value
}.

(** [stat => stat.stat.name === 'attack'] *)
Definition named_attack (stat : value) : completion bool :=
  let* s := get stat "stat" in
  let* n := get s "name" in
  Normal (is_attack n).

(** [{ id: pokemon.id, name: pokemon.name,
       attack: pokemon.stats.find(stat => stat.stat.name === 'attack').base_stat,
       type: pokemon.types[0].type.name,
       image: pokemon.sprites.front_default }] *)
Definition format (pokemon : value) : completion Pokemon :=
  let* the_id := get pokemon "id" in
  let* the_name := get pokemon "name" in
  let* stats := get pokemon "stats" in
  let* entries := as_array stats "find" in
  let* found := find named_attack entries in
  let* the_attack := get found "base_stat" in
  let* types := get pokemon "types" in
  let* first := first_of types in
  let* ty := get first "type" in
  let* the_type := get ty "name" in
  let* sprites := get pokemon "sprites" in
  let* the_image := get sprites "front_default" in
  Normal (mkPokemon the_id the_name the_attack the_type the_image).

Definition BASE_URL : string := "https://pokeapi.co/api/v2/".

(** How a template literal prints an integer. *)
Definition show (n : Z) : string := pretty n.

Section Fetcher.

(** [await axios.get(url)] followed by [.data]: the parsed body of the
    response, or the rejection.  The argument is whatever value the code
    passes as the address. *)
Variable axios_get : value -> completion value.

Definition listing_url (limit offset : Z) : value :=
  str (BASE_URL +:+ "pokemon?limit=" +:+ show limit +:+ "&offset=" +:+ show offset).

Definition detail_url (id : string) : value :=
  str (BASE_URL +:+ "/pokemon/" +:+ id).

(** The callback given to [results.map]:
    [async (pokemon) => { const res = await axios.get(pokemon.url); return res.data; }] *)
Definition fetch_detail (pokemon : value) : completion value :=
  let* url := get pokemon "url" in
  axios_get url.

(** The [try] block of [getCharacters]. *)
Definition getCharacters_try (limit offset : Z) : completion (list Pokemon) :=
  let* data := axios_get (listing_url limit offset) in
  let* results := get data "results" in
  let* items := as_array results "map" in
  let* detailedPokemons := traverse fetch_detail items in
  traverse format detailedPokemons.

(** [getCharacters(limit, offset)] with its [catch] block:
    [console.error("Error fetching Pokémon:", error.message); return [];] *)
Definition getCharacters (limit offset : Z) : completion (list Pokemon) :=
  try_catch (getCharacters_try limit offset)
    (fun e =>
       let* _ := console_error "Error fetching Pokémon:" (message_of e) in
       Normal []).

(** The [try] block of [getSingleCharacter]. *)
Definition getSingleCharacter_try (id : string) : completion (option Pokemon) :=
  let* pokemon := axios_get (detail_url id) in
  let* p := format pokemon in
  Normal (Some p).

(** [getSingleCharacter(id)] with its [catch] block:
    [console.error('Error fetching Pokémon by ID:', error.message); return null;] *)
Definition getSingleCharacter (id : string) : completion (option Pokemon) :=
  try_catch (getSingleCharacter_try id)
    (fun e =>
       let* _ := console_error "Error fetching Pokémon by ID:" (message_of e) in
       Normal None).

End Fetcher.

(** *** Malformed details *)

(** A detail object has no stat entry named 'attack'. *)
Definition no_attack_stat (detail : value) : Prop :=
  exists entries,
    get detail "stats" = Normal (array entries) /\
    Forall (fun st => named_attack st <> Normal true) entries.

(** A detail object has an empty types collection. *)
Definition empty_types (detail : value) : Prop :=
  get detail "types" = Normal (array []).

(** *** A sample server *)

Definition stat_entry (stat_name : string) (base : Z) : value :=
  object [("base_stat", number base); ("stat", object [("name", str stat_name)])].

Definition type_entry (type_name : string) : value :=
  object [("slot", number 1); ("type", object [("name", str type_name)])].

Definition bulbasaur : value :=
  object [ ("id", number 1); ("name", str "bulbasaur");
           ("stats", array [stat_entry "hp" 45; stat_entry "attack" 49; stat_entry "defense" 49]);
           ("types", array [type_entry "grass"; type_entry "poison"]);
           ("sprites", object [("front_default", str "1.png")]) ].

(** A detail object whose stats lack the entry named 'attack'. *)
Definition no_attack : value :=
  object [ ("id", number 2); ("name", str "ivysaur");
           ("stats", array [stat_entry "hp" 60; stat_entry "defense" 63]);
           ("types", array [type_entry "grass"]);
           ("sprites", object [("front_default", str "2.png")]) ].

(** A detail object with an empty types collection. *)
Definition no_types : value :=
  object [ ("id", number 3); ("name", str "venusaur");
           ("stats", array [stat_entry "attack" 82]);
           ("types", array []);
           ("sprites", object [("front_default", str "3.png")]) ].

Definition page (urls : list string) : value :=
  object [ ("count", number 1302);
           ("results", array (map (fun u => object [("name", str u); ("url", str u)]) urls)) ].

(** Serves three listings (offsets 0, 20 and 40) and three details, and
    answers every other request with status 404. *)
Definition sample_server (url : value) : completion value :=
  match url with
  | str u =>
      if String.eqb u "https://pokeapi.co/api/v2/pokemon?limit=20&offset=0"
      then Normal (page ["pokemon/1"; "pokemon/1"])
      else if String.eqb u "https://pokeapi.co/api/v2/pokemon?limit=20&offset=20"
      then Normal (page ["pokemon/1"; "pokemon/2"])
      else if String.eqb u "https://pokeapi.co/api/v2/pokemon?limit=20&offset=40"
      then Normal (page ["pokemon/3"; "pokemon/1"])
      else if String.eqb u "pokemon/1" then Normal bulbasaur
      else if String.eqb u "https://pokeapi.co/api/v2//pokemon/1" then Normal bulbasaur
      else if String.eqb u "pokemon/2" then Normal no_attack
      else if String.eqb u "pokemon/3" then Normal no_types
      else Throw (AxiosError "Request failed with status code 404")
  | _ => Throw (AxiosError "Network Error")
  end.

Definition bulbasaur_record : Pokemon :=
  mkPokemon (number 1) (str "bulbasaur") (number 49) (str "grass") (str "1.png").

(** *** Facts about the building blocks *)

Lemma traverse_throw {A B} (f : A -> completion B) (l : list A) (x : A) (e : error) :
  x ∈ l -> f x = Throw e -> exists e', traverse f l = Throw e'.
Proof.
  intros Hin Hx. induction l as [|y l IH]; [inversion Hin|].
  simpl. destruct (f y) as [b|e1] eqn:Hy; simpl; [|eauto].
  apply elem_of_cons in Hin as [->|Hin]; [congruence|].
  destruct (IH Hin) as [e' ->]. simpl. eauto.
Qed.

Lemma traverse_lookup {A B} (f : A -> completion B) (l : list A) (l' : list B)
  (i : nat) (x : A) :
  traverse f l = Normal l' -> l !! i = Some x ->
  exists y, f x = Normal y /\ l' !! i = Some y.
Proof.
  revert l' i. induction l as [|z l IH]; intros l' i Htr Hi; [discriminate|].
  simpl in Htr. destruct (f z) as [b|e1] eqn:Hz; simpl in Htr; [|discriminate].
  destruct (traverse f l) as [bs|e2] eqn:Hl; simpl in Htr; [|discriminate].
  injection Htr as <-.
  destruct i as [|i]; simpl in Hi.
  - injection Hi as <-. exists b. split; [exact Hz|reflexivity].
  - destruct (IH bs i eq_refl Hi) as [y [Hy Hlk]]. exists y. split; [exact Hy|exact Hlk].
Qed.

(** A search that meets no entry named 'attack' yields [undefined],
    unless the callback throws on the way. *)
Lemma find_no_match (pred : value -> completion bool) (entries : list value) :
  Forall (fun st => pred st <> Normal true) entries ->
  find pred entries = Normal undefined \/ exists e, find pred entries = Throw e.
Proof.
  induction 1 as [|st entries Hst _ IH]; simpl; [now left|].
  destruct (pred st) as [[|]|e]; simpl; [congruence|exact IH|right; eauto].
Qed.

Lemma format_no_attack_stat (detail : value) :
  no_attack_stat detail -> exists e, format detail = Throw e.
Proof.
  intros (entries & Hstats & Hnone). unfold format.
  destruct (get detail "id") as [v1|e1]; simpl; [|eauto].
  destruct (get detail "name") as [v2|e2]; simpl; [|eauto].
  rewrite Hstats. simpl.
  destruct (find_no_match named_attack entries Hnone) as [-> | [e ->]]; simpl; eauto.
Qed.

Lemma format_empty_types (detail : value) :
  empty_types detail -> exists e, format detail = Throw e.
Proof.
  unfold empty_types. intros Htypes. unfold format.
  repeat match goal with
         | |- exists e, bind ?c _ = Throw e =>
             lazymatch c with
             | get detail "types" => rewrite Htypes; simpl
             | _ => destruct c; simpl; [|eauto]
             end
         end.
  eauto.
Qed.

Section Soft.

Variable axios_get : value -> completion value.

Lemma getCharacters_caught (limit offset : Z) (e : error) :
  getCharacters_try axios_get limit offset = Throw e ->
  getCharacters axios_get limit offset = Normal [].
Proof. intros H. unfold getCharacters. rewrite H. reflexivity. Qed.

Lemma getSingleCharacter_caught (id : string) (e : error) :
  getSingleCharacter_try axios_get id = Throw e ->
  getSingleCharacter axios_get id = Normal None.
Proof. intros H. unfold getSingleCharacter. rewrite H. reflexivity. Qed.

(** Once the listing has arrived with an array of results, an item whose
    detail cannot be fetched or cannot be formatted makes the [try] block
    throw. *)
Lemma getCharacters_try_item_throws
  (limit offset : Z) (data : value) (items : list value) (i : nat) (item : value) :
  axios_get (listing_url limit offset) = Normal data ->
  get data "results" = Normal (array items) ->
  items !! i = Some item ->
  (forall detail, fetch_detail axios_get item = Normal detail ->
                  exists e, format detail = Throw e) ->
  exists e, getCharacters_try axios_get limit offset = Throw e.
Proof.
  intros Hdata Hresults Hitem Hbad. unfold getCharacters_try.
  rewrite Hdata. simpl. rewrite Hresults. simpl.
  destruct (traverse (fetch_detail axios_get) items) as [details|e] eqn:Hdetails;
    simpl; [|eauto].
  destruct (traverse_lookup _ _ _ _ _ Hdetails Hitem) as (detail & Hdetail & Hlk).
  destruct (Hbad detail Hdetail) as [e He].
  eapply traverse_throw; [|exact He].
  eapply list_elem_of_lookup_2. exact Hlk.
Qed.

End Soft.

(** *** The sample server at work *)

Example getCharacters_well_formed_page :
  getCharacters sample_server 20 0 = Normal [bulbasaur_record; bulbasaur_record].
Proof. vm_compute. reflexivity. Qed.

Example getSingleCharacter_found :
  getSingleCharacter sample_server "1" = Normal (Some bulbasaur_record).
Proof. vm_compute. reflexivity. Qed.

(** *** Failing soft *)

(** C7.  Neither function ever throws: [getCharacters] always returns an
    array and [getSingleCharacter] a record or [null].  Whenever anything
    throws in the [try] block the result is the empty array, respectively
    [null]; so it is when the request is rejected (no connection, status
    404 for an id that does not exist), when a detail request of a page is
    rejected, and when the body could not be parsed and is still text. *)
Theorem fetchers_fail_soft
  (axios_get : value -> completion value) (limit offset : Z) (id : string) :
  (exists l, getCharacters axios_get limit offset = Normal l) /\
  (exists r, getSingleCharacter axios_get id = Normal r) /\
  (forall e, getCharacters_try axios_get limit offset = Throw e ->
             getCharacters axios_get limit offset = Normal []) /\
  (forall e, getSingleCharacter_try axios_get id = Throw e ->
             getSingleCharacter axios_get id = Normal None) /\
  (forall e, axios_get (listing_url limit offset) = Throw e ->
             getCharacters axios_get limit offset = Normal []) /\
  (forall e, axios_get (detail_url id) = Throw e ->
             getSingleCharacter axios_get id = Normal None) /\
  (forall data items i item e,
     axios_get (listing_url limit offset) = Normal data ->
     get data "results" = Normal (array items) ->
     items !! i = Some item ->
     fetch_detail axios_get item = Throw e ->
     getCharacters axios_get limit offset = Normal []) /\
  (forall text, axios_get (listing_url limit offset) = Normal (str text) ->
                getCharacters axios_get limit offset = Normal []) /\
  (forall text, axios_get (detail_url id) = Normal (str text) ->
                getSingleCharacter axios_get id = Normal None).
Proof.
  split.
  { unfold getCharacters.
    destruct (getCharacters_try axios_get limit offset) as [l|e]; simpl; eauto. }
  split.
  { unfold getSingleCharacter.
    destruct (getSingleCharacter_try axios_get id) as [r|e]; simpl; eauto. }
  split; [apply getCharacters_caught|].
  split; [apply getSingleCharacter_caught|].
  split.
  { intros e He. apply (getCharacters_caught _ _ _ e).
    unfold getCharacters_try. rewrite He. reflexivity. }
  split.
  { intros e He. apply (getSingleCharacter_caught _ _ e).
    unfold getSingleCharacter_try. rewrite He. reflexivity. }
  split.
  { intros data items i item e Hdata Hresults Hitem Hfetch.
    destruct (getCharacters_try_item_throws axios_get limit offset data items i item
                Hdata Hresults Hitem) as [e' He'].
    - intros detail Hdetail. congruence.
    - exact (getCharacters_caught _ _ _ e' He'). }
  split.
  { intros text Htext. unfold getCharacters, getCharacters_try.
    rewrite Htext. reflexivity. }
  intros text Htext. unfold getSingleCharacter, getSingleCharacter_try.
  rewrite Htext. reflexivity.
Qed.

Lemma fetchers_fail_soft_witness :
  let offline := fun _ : value => @Throw value (AxiosError "Network Error") in
  let garbled := fun _ : value => Normal (str "<html>Bad Gateway</html>") in
  getCharacters offline 20 0 = Normal [] /\
  getSingleCharacter offline "25" = Normal None /\
  getSingleCharacter sample_server "100000" = Normal None /\
  getCharacters garbled 20 0 = Normal [] /\
  getSingleCharacter garbled "25" = Normal None.
Proof.
  cbv zeta.
  split.
  { destruct (fetchers_fail_soft (fun _ => Throw (AxiosError "Network Error")) 20 0 "25")
      as (_ & _ & _ & _ & H & _).
    apply (H (AxiosError "Network Error")). reflexivity. }
  split.
  { destruct (fetchers_fail_soft (fun _ => Throw (AxiosError "Network Error")) 20 0 "25")
      as (_ & _ & _ & _ & _ & H & _).
    apply (H (AxiosError "Network Error")). reflexivity. }
  split.
  { destruct (fetchers_fail_soft sample_server 20 0 "100000")
      as (_ & _ & _ & _ & _ & H & _).
    apply (H (AxiosError "Request failed with status code 404")).
    vm_compute. reflexivity. }
  split.
  { destruct (fetchers_fail_soft (fun _ => Normal (str "<html>Bad Gateway</html>")) 20 0 "25")
      as (_ & _ & _ & _ & _ & _ & _ & H & _).
    apply (H "<html>Bad Gateway</html>"). reflexivity. }
  destruct (fetchers_fail_soft (fun _ => Normal (str "<html>Bad Gateway</html>")) 20 0 "25")
    as (_ & _ & _ & _ & _ & _ & _ & _ & H).
  apply (H "<html>Bad Gateway</html>"). reflexivity.
Defined.

(** C10.  When the listing of a page has arrived and the detail fetched
    for one of its items has no stat entry named 'attack', or has an empty
    types collection, the [try] block throws while that item is formatted
    and [getCharacters] returns the empty array for the whole page,
    whatever the other items are. *)
Theorem malformed_item_discards_page
  (axios_get : value -> completion value) (limit offset : Z)
  (data : value) (items : list value) (i : nat) (item detail : value) :
  axios_get (listing_url limit offset) = Normal data ->
  get data "results" = Normal (array items) ->
  items !! i = Some item ->
  fetch_detail axios_get item = Normal detail ->
  no_attack_stat detail \/ empty_types detail ->
  (exists e, getCharacters_try axios_get limit offset = Throw e) /\
  getCharacters axios_get limit offset = Normal [].
Proof.
  intros Hdata Hresults Hitem Hdetail Hbad.
  assert (Hthrow : exists e, getCharacters_try axios_get limit offset = Throw e).
  { apply (getCharacters_try_item_throws axios_get limit offset data items i item
             Hdata Hresults Hitem).
    intros detail' Hdetail'. rewrite Hdetail in Hdetail'. injection Hdetail' as <-.
    destruct Hbad as [Hstat|Htypes];
      [now apply format_no_attack_stat|now apply format_empty_types]. }
  split; [exact Hthrow|].
  destruct Hthrow as [e He]. exact (getCharacters_caught _ _ _ e He).
Qed.

Lemma malformed_item_discards_page_witness :
  (no_attack_stat no_attack /\ getCharacters sample_server 20 20 = Normal []) /\
  (empty_types no_types /\ getCharacters sample_server 20 40 = Normal []).
Proof.
  assert (Hstat : no_attack_stat no_attack).
  { exists [stat_entry "hp" 60; stat_entry "defense" 63].
    split; [reflexivity|]. repeat constructor; discriminate. }
  assert (Htypes : empty_types no_types) by reflexivity.
  split; (split; [assumption|]).
  - apply (malformed_item_discards_page sample_server 20 20
             (page ["pokemon/1"; "pokemon/2"])
             [ object [("name", str "pokemon/1"); ("url", str "pokemon/1")];
               object [("name", str "pokemon/2"); ("url", str "pokemon/2")] ]
             1 (object [("name", str "pokemon/2"); ("url", str "pokemon/2")]) no_attack);
      [vm_compute; reflexivity|reflexivity|reflexivity|vm_compute; reflexivity|].
    left. exact Hstat.
  - apply (malformed_item_discards_page sample_server 20 40
             (page ["pokemon/3"; "pokemon/1"])
             [ object [("name", str "pokemon/3"); ("url", str "pokemon/3")];
               object [("name", str "pokemon/1"); ("url", str "pokemon/1")] ]
             0 (object [("name", str "pokemon/3"); ("url", str "pokemon/3")]) no_types);
      [vm_compute; reflexivity|reflexivity|reflexivity|vm_compute; reflexivity|].
    right. exact Htypes.
Defined.

(** *** What a page that loads holds *)

Lemma traverse_length {A B} (f : A -> completion B) (l : list A) (l' : list B) :
  traverse f l = Normal l' -> length l' = length l.
Proof.
  revert l'. induction l as [|x l IH]; intros l' H; simpl in H.
  - injection H as <-. reflexivity.
  - destruct (f x) as [y|e]; simpl in H; [|discriminate].
    destruct (traverse f l) as [ys|e]; simpl in H; [|discriminate].
    injection H as <-. simpl. f_equal. now apply IH.
Qed.

(** The first entry for which the callback returns true is what the
    search yields; the entries before it only need to be passed over. *)
Lemma find_first_match (pred : value -> completion bool)
  (before after : list value) (entry : value) :
  Forall (fun st => pred st = Normal false) before ->
  pred entry = Normal true ->
  find pred (before ++ entry :: after) = Normal entry.
Proof.
  induction 1 as [|st before Hst _ IH]; intros Hentry; simpl.
  - rewrite Hentry. reflexivity.
  - rewrite Hst. simpl. now apply IH.
Qed.

Section MoreFetcherFacts.

Variable axios_get : value -> completion value.

(** When a page is fetched without failure it holds one record per listed
    item, in the order of the listing: record [i] is the formatted detail
    of item [i]. *)
Theorem getCharacters_keeps_listing_order
  (limit offset : Z) (data : value) (items : list value) (records : list Pokemon) :
  axios_get (listing_url limit offset) = Normal data ->
  get data "results" = Normal (array items) ->
  getCharacters_try axios_get limit offset = Normal records ->
  getCharacters axios_get limit offset = Normal records /\
  length records = length items /\
  forall i item,
    items !! i = Some item ->
    exists detail record,
      fetch_detail axios_get item = Normal detail /\
      format detail = Normal record /\
      records !! i = Some record.
Proof.
  intros Hdata Hresults Htry.
  split; [unfold getCharacters; rewrite Htry; reflexivity|].
  unfold getCharacters_try in Htry. rewrite Hdata in Htry. simpl in Htry.
  rewrite Hresults in Htry. simpl in Htry.
  destruct (traverse (fetch_detail axios_get) items) as [details|e] eqn:Hdetails;
    simpl in Htry; [|discriminate].
  split.
  - rewrite (traverse_length _ _ _ Htry). apply (traverse_length _ _ _ Hdetails).
  - intros i item Hitem.
    destruct (traverse_lookup _ _ _ _ _ Hdetails Hitem) as (detail & Hdetail & Hlk).
    destruct (traverse_lookup _ _ _ _ _ Htry Hlk) as (record & Hrecord & Hlk').
    exists detail, record. split; [exact Hdetail|]. split; [exact Hrecord|exact Hlk'].
Qed.

End MoreFetcherFacts.

(** What [format] makes of a detail object: [id], [name] and the image are
    copied as they are found ([undefined] when the property is missing),
    the attack is the [base_stat] of the first stats entry whose
    [stat.name] is exactly 'attack', and the type is the name of the first
    entry of [types]. *)
Theorem format_reads_first_attack_and_first_type
  (props : list (string * value)) (before after : list value) (entry : value)
  (first_type type_object sprites : value) (more_types : list value) :
  assoc "stats" props = Some (array (before ++ entry :: after)) ->
  Forall (fun st => named_attack st = Normal false) before ->
  named_attack entry = Normal true ->
  assoc "types" props = Some (array (first_type :: more_types)) ->
  get first_type "type" = Normal type_object ->
  type_object <> undefined -> type_object <> null ->
  assoc "sprites" props = Some sprites ->
  sprites <> undefined -> sprites <> null ->
  exists the_attack the_type the_image,
    get entry "base_stat" = Normal the_attack /\
    get type_object "name" = Normal the_type /\
    get sprites "front_default" = Normal the_image /\
    format (object props)
    = Normal (mkPokemon (default undefined (assoc "id" props))
                (default undefined (assoc "name" props))
                the_attack the_type the_image).
Proof.
  intros Hstats Hbefore Hentry Htypes Hfirst Hty1 Hty2 Hsprites Hsp1 Hsp2.
  assert (Hbase : exists a, get entry "base_stat" = Normal a).
  { unfold named_attack in Hentry.
    destruct entry; simpl in Hentry; try discriminate; simpl; eauto. }
  assert (Hname : exists t, get type_object "name" = Normal t).
  { destruct type_object; simpl; eauto; congruence. }
  assert (Himage : exists im, get sprites "front_default" = Normal im).
  { destruct sprites; simpl; eauto; congruence. }
  destruct Hbase as [a Ha], Hname as [t Ht], Himage as [im Him].
  exists a, t, im. split; [exact Ha|]. split; [exact Ht|]. split; [exact Him|].
  unfold format. cbn [get bind]. rewrite Hstats, Htypes, Hsprites. simpl.
  rewrite (find_first_match named_attack before after entry Hbefore Hentry).
  simpl. rewrite Ha. simpl. rewrite Hfirst. simpl. rewrite Ht. simpl.
  rewrite Him. reflexivity.
Qed.

(** A detail object whose stats list 'special-attack' before 'attack', and
    a second entry named 'attack' after it. *)
Definition charmander : value :=
  object [ ("id", number 4); ("name", str "charmander");
           ("stats", array [stat_entry "hp" 39; stat_entry "special-attack" 60;
                            stat_entry "attack" 52; stat_entry "attack" 7]);
           ("types", array [type_entry "fire"; type_entry "flying"]);
           ("sprites", object [("front_default", str "4.png")]) ].

Definition charmander_record : Pokemon :=
  mkPokemon (number 4) (str "charmander") (number 52) (str "fire") (str "4.png").

(** Serves one listing of two items and their details. *)
Definition catalog_server (url : value) : completion value :=
  match url with
  | str u =>
      if String.eqb u "https://pokeapi.co/api/v2/pokemon?limit=2&offset=0"
      then Normal (page ["pokemon/4"; "pokemon/1"])
      else if String.eqb u "pokemon/1" then Normal bulbasaur
      else if String.eqb u "pokemon/4" then Normal charmander
      else Throw (AxiosError "Request failed with status code 404")
  | _ => Throw (AxiosError "Network Error")
  end.

Lemma getCharacters_keeps_listing_order_witness :
  getCharacters catalog_server 2 0 = Normal [charmander_record; bulbasaur_record] /\
  exists detail record,
    fetch_detail catalog_server (object [("name", str "pokemon/1"); ("url", str "pokemon/1")])
    = Normal detail /\
    format detail = Normal record /\
    [charmander_record; bulbasaur_record] !! 1%nat = Some record.
Proof.
  destruct (getCharacters_keeps_listing_order catalog_server 2 0
              (page ["pokemon/4"; "pokemon/1"])
              (map (fun u => object [("name", str u); ("url", str u)])
                 ["pokemon/4"; "pokemon/1"])
              [charmander_record; bulbasaur_record]
              eq_refl eq_refl eq_refl) as (Hall & _ & Hitem).
  split; [exact Hall|].
  exact (Hitem 1%nat _ eq_refl).
Defined.

Lemma format_reads_first_attack_and_first_type_witness :
  format charmander = Normal charmander_record.
Proof.
  destruct (format_reads_first_attack_and_first_type
              [ ("id", number 4); ("name", str "charmander");
                ("stats", array [stat_entry "hp" 39; stat_entry "special-attack" 60;
                                 stat_entry "attack" 52; stat_entry "attack" 7]);
                ("types", array [type_entry "fire"; type_entry "flying"]);
                ("sprites", object [("front_default", str "4.png")]) ]
              [stat_entry "hp" 39; stat_entry "special-attack" 60]
              [stat_entry "attack" 7]
              (stat_entry "attack" 52)
              (type_entry "fire") (object [("name", str "fire")])
              (object [("front_default", str "4.png")])
              [type_entry "flying"]
              eq_refl
              ltac:(repeat constructor)
              eq_refl eq_refl eq_refl
              ltac:(discriminate) ltac:(discriminate)
              eq_refl
              ltac:(discriminate) ltac:(discriminate))
    as (a & t & im & Ha & Ht & Him & Hformat).
  injection Ha as <-. injection Ht as <-. injection Him as <-.
  exact Hformat.
Defined.

End Api.

(** ** The pages: list, detail and combat *)

Module Pages.
Import Api.

(** *** pages/CharacterList: loading the catalog *)

(** The state of the list page that its fetches write: [characters],
    [loading], [loadingMore] and [offset]. *)
Record ListState := mkListState {
  characters : list Pokemon;
  loading : bool;
  loadingMore : bool;
  offset : Z
}.

(** The values given to [useState]. *)
Definition initial_list : ListState := mkListState [] true false 0.

Section CharacterList.

Variable axios_get : value -> completion value.

(** The mount effect:
    [getCharacters(20, 0).then(data => {
       setCharacters(data); setLoading(false); setOffset(20); })];
    the callback of [then] runs only when the promise is fulfilled. *)
Definition list_mounted (st : ListState) : ListState :=
  match getCharacters axios_get 20 0 with
  | Normal data => mkListState data false (loadingMore st) 20
  | Throw _ => st
  end.

(** [loadMorePokemon]:
    [setLoadingMore(true);
     try { const newPokemon = await getCharacters(20, offset);
           setCharacters(prev => [...prev, ...newPokemon]);
           setOffset(prev => prev + 20); }
     catch (error) { console.error(...); }
     finally { setLoadingMore(false); }] *)
Definition loadMorePokemon (st : ListState) : ListState :=
  let st1 := mkListState (characters st) (loading st) true (offset st) in
  let st2 :=
    match getCharacters axios_get 20 (offset st) with
    | Normal newPokemon =>
        mkListState (characters st1 ++ newPokemon) (loading st1) (loadingMore st1)
          (offset st1 + 20)
    | Throw _ => st1
    end in
  mkListState (characters st2) (loading st2) false (offset st2).

(** The page after the mount effect and [n] clicks on "Load More", each
    after the one before has settled (the button is disabled meanwhile). *)
Fixpoint after_loads (n : nat) : ListState :=
  match n with
  | O => list_mounted initial_list
  | S n' => loadMorePokemon (after_loads n')
  end.

(** What the request for the page at [offset] contributes: its records,
    nothing when anything in it fails. *)
Definition page_at (offset : Z) : list Pokemon :=
  match getCharacters_try axios_get 20 offset with
  | Normal records => records
  | Throw _ => []
  end.

End CharacterList.

(** *** components/Character, components/Card, pages/CharacterDetail *)

(** [String.prototype.toLowerCase] on one character, on ASCII. *)
Definition lower_ascii (c : ascii) : ascii :=
  let n := nat_of_ascii c in
  if ((65 <=? n)%nat && (n <=? 90)%nat)%bool then ascii_of_nat (n + 32) else c.

Fixpoint toLowerCase (s : string) : string :=
  match s with
  | EmptyString => EmptyString
  | String c r => String (lower_ascii c) (toLowerCase r)
  end.

(** Rendering evaluates string methods on fields of a record that the
    fetcher copied unchecked.  A render that throws is [None]: no route
    has an error boundary, so the page goes blank. *)

(** [v.charAt(0).toUpperCase() + v.slice(1)]: only a string has [charAt]. *)
Definition capitalized (v : value) : option string :=
  match v with
  | str s => Some (Js.capitalizeFirst s)
  | _ => None
  end.

(** [v.toLowerCase()] *)
Definition lowered (v : value) : option string :=
  match v with
  | str s => Some (toLowerCase s)
  | _ => None
  end.

(** [String(v)], as a template literal applies it: integers print in
    decimal (below 10^21), an array prints its elements separated by
    commas with [null] and [undefined] as the empty string. *)
Fixpoint String_of (v : value) : string :=
  match v with
  | undefined => "undefined"
  | null => "null"
  | boolean b => if b then "true" else "false"
  | number n => show n
  | str s => s
  | array items =>
      String.concat ","
        (map (fun x => match x with
                       | undefined | null => ""
                       | _ => String_of x
                       end) items)
  | object _ => "[object Object]"
  end.

(** [v.toString()]: [undefined] and [null] have no properties. *)
Definition toString (v : value) : option string :=
  match v with
  | undefined | null => None
  | _ => Some (String_of v)
  end.

(** [s.padStart(3, '0')] *)
Definition padStart3 (s : string) : string :=
  String.concat "" (repeat "0" (3 - String.length s)%nat) +:+ s.

(** A child in braces: strings and numbers render as text, booleans,
    [null] and [undefined] as nothing, an array child by child, and a
    plain object makes React throw. *)
Fixpoint render_child (v : value) : option string :=
  match v with
  | undefined | null | boolean _ => Some ""
  | number n => Some (show n)
  | str s => Some s
  | array items =>
      (fix children (l : list value) : option string :=
         match l with
         | [] => Some ""
         | x :: rest =>
             a ← render_child x;
             b ← children rest;
             Some (a +:+ b)
         end) items
  | object _ => None
  end.

(** What [Character] shows: the heading, the image with its alternative
    text, and the description paragraph when one is given. *)
Record CharacterView := mkCharacterView {
  heading : string;
  img_src : value;
  img_alt : value;
  paragraph : option string
}.

(** [Character({ info, description })] *)
Definition Character (info : Pokemon) (description : option string) : option CharacterView :=
  h ← capitalized (name info);
  Some (mkCharacterView h (image info) (name info)
          (match description with
           | Some d => if String.eqb d "" then None else Some d
           | None => None
           end)).

Record CardView := mkCardView {
  className : string;
  character_info : CharacterView;
  button : string;
  link : string
}.

(** [Card({ info, selected, onSelect })] *)
Definition Card (info : Pokemon) (selected : bool) : option CardView :=
  ty ← lowered (type info);
  ch ← Character info None;
  Some (mkCardView
          ("character " +:+ ty +:+ " " +:+ (if selected then "selected" else ""))
          ch
          (if selected then "Unselect" else "Select")
          ("/characters/" +:+ String_of (id info))).

Record DetailView := mkDetailView {
  detail_info : CharacterView;
  attack_power : string;
  type_text : string;
  pokedex : string
}.

(** The last [return] of [CharacterDetail]. *)
Definition render_detail (character : Pokemon) : option DetailView :=
  ch ← Character character None;
  a ← render_child (attack character);
  t ← capitalized (type character);
  i ← toString (id character);
  Some (mkDetailView ch a t ("#" +:+ padStart3 i)).

Inductive DetailScreen :=
| LoadingScreen
| NotFoundScreen
| DetailsScreen (v : DetailView)
| Blank.

Section CharacterDetail.

Variable axios_get : value -> completion value.

(** [CharacterDetail] once [getSingleCharacter(id)] has settled:
    [.then(data => { setCharacter(data); setLoading(false); })] runs for a
    fulfilled promise only; before, and if it never ran, the screen is
    "Loading Pokémon...". *)
Definition CharacterDetail (id : string) : DetailScreen :=
  match getSingleCharacter axios_get id with
  | Throw _ => LoadingScreen
  | Normal None => NotFoundScreen
  | Normal (Some character) =>
      match render_detail character with
      | Some v => DetailsScreen v
      | None => Blank
      end
  end.

End CharacterDetail.

(** A detail object without a name, as the sample server could serve it. *)
Definition nameless : value :=
  object [ ("id", number 4);
           ("stats", array [stat_entry "attack" 52]);
           ("types", array [type_entry "fire"]);
           ("sprites", object [("front_default", str "4.png")]) ].

(** pages/Combat:
    [const { state } = useLocation();
     const { fighters } = state || { fighters: [] };
     return <CombatResult fighters={fighters} />;]
    The navigation state is [null] on a direct visit, and the object
    [startCombat] passes otherwise. *)
Definition CombatPage (state : option (list Combat.Fighter)) : Combat.Rendered :=
  Combat.CombatResult
    (match state with
     | Some fighters => fighters
     | None => []
     end).

(** The label of a card's button in the list:
    [selected={selectedCharacters.includes(character)}] and
    [{selected ? 'Unselect' : 'Select'}]. *)
Definition card_button (selectedCharacters : list Selection.ref) (character : Selection.ref)
  : string :=
  if Selection.includes selectedCharacters character then "Unselect" else "Select".

(** *** Facts about the pages *)

Section CharacterListFacts.

Variable axios_get : value -> completion value.

Lemma getCharacters_page (offset : Z) :
  getCharacters axios_get 20 offset = Normal (page_at axios_get offset).
Proof.
  unfold getCharacters, page_at.
  destruct (getCharacters_try axios_get 20 offset); reflexivity.
Qed.

(** After the mount and [n] completed "Load More" the page is not
    loading, the offset is [20 (n + 1)], and the list shown is the pages at
    offsets 0, 20, ..., [20 n] one after the other, a failed page
    contributing nothing. *)
Theorem load_more_concatenates_pages (n : nat) :
  let st := after_loads axios_get n in
  loading st = false /\
  loadingMore st = false /\
  offset st = 20 * (Z.of_nat n + 1) /\
  characters st
  = flat_map (fun i => page_at axios_get (20 * Z.of_nat i)) (seq 0 (S n)).
Proof.
  induction n as [|n IH]; cbv zeta.
  - cbn [after_loads]. unfold list_mounted. rewrite getCharacters_page.
    cbn. rewrite app_nil_r. repeat split.
  - destruct IH as (Hl & Hm & Ho & Hc).
    cbn [after_loads]. unfold loadMorePokemon. rewrite getCharacters_page.
    cbn [characters loading loadingMore offset].
    split; [exact Hl|]. split; [reflexivity|]. split; [lia|].
    rewrite Hc, Ho. rewrite (seq_S (S n) 0), flat_map_app. cbn [flat_map].
    rewrite app_nil_r. do 2 f_equal. lia.
Qed.

(** A "Load More" whose fetch fails adds nothing and still moves the
    offset on by 20: later clicks ask for the pages after the one that
    failed, and its records are not asked for again. *)
Theorem failed_load_more_skips_page (st : ListState) (e : error) :
  getCharacters_try axios_get 20 (offset st) = Throw e ->
  loadMorePokemon axios_get st
  = mkListState (characters st) (loading st) false (offset st + 20) /\
  forall m,
    offset (Nat.iter m (loadMorePokemon axios_get) (loadMorePokemon axios_get st))
    = offset st + 20 * (Z.of_nat m + 1).
Proof.
  intros Hfail.
  assert (Hstep : forall s, offset (loadMorePokemon axios_get s) = offset s + 20).
  { intros s. unfold loadMorePokemon. rewrite getCharacters_page. reflexivity. }
  split.
  - unfold loadMorePokemon. rewrite getCharacters_page. unfold page_at. rewrite Hfail.
    cbn. rewrite app_nil_r. reflexivity.
  - induction m as [|m IH]; [cbv [Nat.iter nat_rect]; rewrite Hstep; lia|].
    rewrite Nat.iter_succ, Hstep, IH. lia.
Qed.

End CharacterListFacts.

Lemma failed_load_more_skips_page_witness :
  offset (after_loads sample_server 0) = 20 /\
  (exists e, getCharacters_try sample_server 20 20 = Throw e) /\
  loadMorePokemon sample_server (after_loads sample_server 0)
  = mkListState [bulbasaur_record; bulbasaur_record] false false 40.
Proof.
  split; [reflexivity|]. split; [eexists; reflexivity|].
  apply (failed_load_more_skips_page sample_server (after_loads sample_server 0)
           (TypeError "Cannot read properties: base_stat") eq_refl).
Defined.

Lemma string_length_app (a b : string) :
  String.length (a +:+ b) = (String.length a + String.length b)%nat.
Proof.
  induction a as [|c a IH]; simpl; [reflexivity|]. now rewrite IH.
Qed.

Lemma pretty_N_go_length (x : N) (s : string) :
  (String.length s <= String.length (pretty_N_go x s))%nat.
Proof.
  revert s. induction (N.lt_wf_0 x) as [x _ IH]. intros s.
  destruct (N.eq_dec x 0%N) as [->|Hx]; [rewrite pretty_N_go_0; lia|].
  rewrite pretty_N_go_step by lia.
  etransitivity; [|apply IH, N.div_lt; lia]. simpl. lia.
Qed.

Lemma show_pos (n : Z) : 0 < n -> show n = pretty_N_go (Z.to_N n) "".
Proof.
  intros H. destruct n as [|p|p]; try lia. reflexivity.
Qed.

Lemma show_length_1 (n : Z) : 0 <= n < 10 -> String.length (show n) = 1%nat.
Proof.
  intros H. destruct (Z.eq_dec n 0) as [->|Hn]; [reflexivity|].
  rewrite show_pos by lia.
  rewrite pretty_N_go_step by lia.
  rewrite N.div_small by lia. rewrite pretty_N_go_0. reflexivity.
Qed.

Lemma show_length_2 (n : Z) : 10 <= n < 100 -> String.length (show n) = 2%nat.
Proof.
  intros H. rewrite show_pos by lia.
  rewrite pretty_N_go_step by lia.
  rewrite pretty_N_go_step by (apply N.div_str_pos; lia).
  rewrite N.Div0.div_div. change (10 * 10)%N with 100%N.
  rewrite N.div_small by lia. rewrite pretty_N_go_0. reflexivity.
Qed.

Lemma show_length_3 (n : Z) : 100 <= n -> (3 <= String.length (show n))%nat.
Proof.
  intros H. rewrite show_pos by lia.
  rewrite pretty_N_go_step by lia.
  rewrite pretty_N_go_step by (apply N.div_str_pos; lia).
  rewrite pretty_N_go_step
    by (rewrite N.Div0.div_div; apply N.div_str_pos; lia).
  etransitivity; [|apply pretty_N_go_length]. simpl. lia.
Qed.

(** The Pokédex number on the detail page: an id below 1000 is padded
    with zeros to three digits, a longer one is printed as it is. *)
Theorem pokedex_number_padded (p : Pokemon) (n : Z) :
  id p = number n -> 0 <= n < 10 ^ 21 ->
  forall v, render_detail p = Some v ->
    (n < 10 -> pokedex v = "#00" +:+ show n) /\
    (10 <= n < 100 -> pokedex v = "#0" +:+ show n) /\
    (100 <= n -> pokedex v = "#" +:+ show n) /\
    (n < 1000 -> String.length (pokedex v) = 4%nat).
Proof.
  intros Hid Hn v Hv. unfold render_detail in Hv. rewrite Hid in Hv.
  destruct (Character p None) as [ch|]; [|discriminate]. simpl in Hv.
  destruct (render_child (attack p)) as [a|]; [|discriminate]. simpl in Hv.
  destruct (capitalized (type p)) as [t|]; [|discriminate]. simpl in Hv.
  injection Hv as <-. cbn [pokedex]. unfold padStart3.
  assert (Hlen : forall s, String.length ("#" +:+ s) = S (String.length s))
    by reflexivity.
  split; [|split; [|split]].
  - intros H. rewrite (show_length_1 n) by lia. reflexivity.
  - intros H. rewrite (show_length_2 n) by lia. reflexivity.
  - intros H. pose proof (show_length_3 n H) as H3.
    replace (3 - String.length (show n))%nat with 0%nat by lia. reflexivity.
  - intros H. rewrite !string_length_app.
    destruct (Z_lt_dec n 10) as [H1|H1];
      [rewrite (show_length_1 n) by lia; reflexivity|].
    destruct (Z_lt_dec n 100) as [H2|H2];
      [rewrite (show_length_2 n) by lia; reflexivity|].
    assert (String.length (show n) = 3%nat) as ->; [|reflexivity].
    rewrite show_pos by lia.
    rewrite pretty_N_go_step by lia.
    rewrite pretty_N_go_step by (apply N.div_str_pos; lia).
    rewrite pretty_N_go_step
      by (rewrite N.Div0.div_div; apply N.div_str_pos; lia).
    rewrite !N.Div0.div_div. rewrite N.div_small by lia.
    rewrite pretty_N_go_0. reflexivity.
Qed.

Lemma pokedex_number_padded_witness :
  render_detail bulbasaur_record
  = Some (mkDetailView
            (mkCharacterView "Bulbasaur" (str "1.png") (str "bulbasaur") None)
            "49" "Grass" "#001") /\
  (forall v, render_detail bulbasaur_record = Some v -> pokedex v = "#00" +:+ show 1).
Proof.
  split; [reflexivity|].
  intros v Hv.
  apply (pokedex_number_padded bulbasaur_record 1 eq_refl
           ltac:(vm_compute; split; [discriminate|reflexivity]) v Hv).
  lia.
Defined.

Section DetailFacts.

Variable axios_get : value -> completion value.

(** Once the request of the detail page has settled the page no longer
    shows "Loading Pokémon...", and it shows "Pokémon not found." exactly
    when the request or the formatting of the answer failed. *)
Theorem detail_page_settles (the_id : string) :
  CharacterDetail axios_get the_id <> LoadingScreen /\
  (CharacterDetail axios_get the_id = NotFoundScreen
   <-> exists e, getSingleCharacter_try axios_get the_id = Throw e).
Proof.
  unfold CharacterDetail, getSingleCharacter, getSingleCharacter_try.
  destruct (axios_get (detail_url the_id)) as [pokemon|e1]; simpl.
  - destruct (format pokemon) as [p|e2]; simpl.
    + destruct (render_detail p); split; try discriminate;
        split; [discriminate|intros [e He]; discriminate
               |discriminate|intros [e He]; discriminate].
    + split; [discriminate|]. split; eauto.
  - split; [discriminate|]. split; eauto.
Qed.

End DetailFacts.

(** A record whose name is not a string can be shown nowhere: the card in
    the list and the detail page both throw while rendering.  The same
    holds for the detail page and the card when the type is not a string.
    The fetcher builds such a record from a detail object that lacks
    [name]. *)
Theorem record_without_name_cannot_render (p : Pokemon) :
  ((forall s, name p <> str s) ->
   (forall description, Character p description = None) /\
   (forall selected, Card p selected = None) /\
   render_detail p = None) /\
  ((forall s, type p <> str s) ->
   (forall selected, Card p selected = None) /\
   render_detail p = None).
Proof.
  split; intros H.
  - assert (Hc : forall d, Character p d = None).
    { intros d. unfold Character. destruct (name p) as [| | | |s| |] eqn:E; try reflexivity.
      now destruct (H s). }
    split; [exact Hc|]. split.
    + intros selected. unfold Card. rewrite Hc.
      destruct (lowered (type p)); reflexivity.
    + unfold render_detail. rewrite Hc. reflexivity.
  - assert (Ht : forall s, type p = str s -> False) by (intros s Hs; exact (H s Hs)).
    split.
    + intros selected. unfold Card.
      destruct (type p) as [| | | |s| |] eqn:E; try reflexivity. now destruct (Ht s).
    + unfold render_detail.
      destruct (Character p None) as [ch|]; [|reflexivity]. simpl.
      destruct (render_child (attack p)) as [shown|]; [|reflexivity]. simpl.
      destruct (type p) as [| | | |s| |] eqn:E; try reflexivity. now destruct (Ht s).
Qed.

Lemma record_without_name_cannot_render_witness :
  exists p, format nameless = Normal p /\
            name p = undefined /\
            Card p false = None /\
            render_detail p = None.
Proof.
  exists (mkPokemon (number 4) undefined (number 52) (str "fire") (str "4.png")).
  split; [reflexivity|]. split; [reflexivity|].
  destruct (record_without_name_cannot_render
              (mkPokemon (number 4) undefined (number 52) (str "fire") (str "4.png")))
    as [Hname _].
  destruct (Hname ltac:(intros s; discriminate)) as (_ & Hcard & Hdetail).
  split; [apply Hcard|exact Hdetail].
Defined.

Section ListToArena.

Variable heap : Selection.ref -> Combat.Fighter.

(** From the list to the verdict.  Without navigation state the combat
    page shows the advisory.  Selecting two different records [a] then [b]
    shows "Start Combat"; the combat page then mounts the arena with [a]
    as first and [b] as second participant, and the finished run declares
    the one of them that [combatWinner] picks: [b] unless [a] has the
    strictly greater attack. *)
Theorem selection_order_decides_participants (rnd : nat -> Z) (a b : Selection.ref) :
  a <> b ->
  let sel := Selection.after_clicks heap [a; b] in
  let fighters := Selection.startCombat heap sel in
  CombatPage None = Combat.PleaseSelectTwo "Please select two Pok√©mon." /\
  sel = [a; b] /\
  Selection.can_start sel = true /\
  fighters = [heap a; heap b] /\
  CombatPage (Some fighters) = Combat.Arena (Combat.mounted fighters) /\
  Combat.winner
    (Combat.state (Combat.run fighters rnd Combat.run_length (Combat.mounted fighters)))
  = Some (if Combat.attack (heap a) >? Combat.attack (heap b) then heap a else heap b).
Proof.
  intros Hab sel fighters.
  assert (Hsel : sel = [a; b]).
  { subst sel. unfold Selection.after_clicks. cbn [fold_left].
    unfold Selection.handleSelect at 2. cbn [Selection.includes existsb length Nat.ltb Nat.leb app].
    unfold Selection.handleSelect. cbn [Selection.includes existsb orb].
    destruct (Nat.eqb_spec b a) as [E|_]; [now destruct Hab|]. reflexivity. }
  assert (Hf : fighters = [heap a; heap b]) by (subst fighters; rewrite Hsel; reflexivity).
  split; [reflexivity|]. split; [exact Hsel|].
  split; [rewrite Hsel; reflexivity|]. split; [exact Hf|].
  rewrite Hf. split; [reflexivity|].
  destruct (Combat.winner_every_run (heap a) (heap b) rnd
              (Combat.mounted [heap a; heap b])
              (Combat.begins_mount [heap a; heap b])) as [Hw _].
  exact Hw.
Qed.

(** The button of a card follows the clicks: a click on "Select" turns it
    into "Unselect" when fewer than two are selected and is ignored
    otherwise, and a click on "Unselect" turns it back into "Select". *)
Theorem card_button_follows_clicks (sel : list Selection.ref) (c : Selection.ref) :
  (card_button sel c = "Select" -> (length sel < 2)%nat ->
     card_button (Selection.handleSelect heap sel c) c = "Unselect") /\
  (card_button sel c = "Select" -> (2 <= length sel)%nat ->
     Selection.handleSelect heap sel c = sel) /\
  (card_button sel c = "Unselect" ->
     card_button (Selection.handleSelect heap sel c) c = "Select").
Proof.
  unfold card_button, Selection.handleSelect.
  destruct (Selection.includes sel c) eqn:Hin.
  - split; [discriminate|]. split; [discriminate|]. intros _.
    assert (Hout : Selection.includes
                     (List.filter
                        (fun c0 => negb (Combat.id (heap c0) =? Combat.id (heap c))) sel) c
                   = false).
    { apply Selection.includes_false_iff. intros Hmem.
      apply list_elem_of_In, filter_In in Hmem as [_ Hne].
      rewrite Z.eqb_refl in Hne. discriminate. }
    rewrite Hout. reflexivity.
  - split; [|split; [|discriminate]]; intros _ Hlen.
    + destruct (Nat.ltb_spec (length sel) 2) as [_|Hge]; [|lia].
      assert (Hnow : Selection.includes (sel ++ [c]) c = true).
      { apply Selection.includes_true_iff. apply elem_of_app. right.
        apply list_elem_of_singleton. reflexivity. }
      rewrite Hnow. reflexivity.
    + destruct (Nat.ltb_spec (length sel) 2) as [Hlt|_]; [lia|]. reflexivity.
Qed.

End ListToArena.

Lemma selection_order_decides_participants_witness :
  0%nat <> 1%nat /\
  Combat.winner
    (Combat.state
       (Combat.run [Combat.pikachu; Combat.charizard] Combat.sample_draws Combat.run_length
          (Combat.mounted [Combat.pikachu; Combat.charizard])))
  = Some Combat.charizard.
Proof.
  split; [discriminate|].
  destruct (selection_order_decides_participants Selection.sample_heap
              Combat.sample_draws 0%nat 1%nat ltac:(discriminate))
    as (_ & _ & _ & _ & _ & Hw).
  exact Hw.
Defined.

Lemma card_button_follows_clicks_witness :
  card_button [] 0%nat = "Select" /\
  card_button (Selection.handleSelect Selection.sample_heap [] 0%nat) 0%nat = "Unselect" /\
  card_button [0%nat; 1%nat] 2%nat = "Select" /\
  Selection.handleSelect Selection.sample_heap [0%nat; 1%nat] 2%nat = [0%nat; 1%nat] /\
  card_button [0%nat; 1%nat] 1%nat = "Unselect" /\
  card_button (Selection.handleSelect Selection.sample_heap [0%nat; 1%nat] 1%nat) 1%nat
  = "Select".
Proof.
  destruct (card_button_follows_clicks Selection.sample_heap [] 0%nat) as (H1 & _ & _).
  destruct (card_button_follows_clicks Selection.sample_heap [0%nat; 1%nat] 2%nat)
    as (_ & H2 & _).
  destruct (card_button_follows_clicks Selection.sample_heap [0%nat; 1%nat] 1%nat)
    as (_ & _ & H3).
  split; [reflexivity|]. split; [apply H1; [reflexivity|simpl; lia]|].
  split; [reflexivity|]. split; [apply H2; [reflexivity|simpl; lia]|].
  split; [reflexivity|]. apply H3. reflexivity.
Defined.

End Pages.
